(** * The release server, embedded in Rocq

    The source is the second unit of src/cmd/helm/repo_index_test.go, the
    [releaseServer] and its handlers.  The server owns the release
    lifecycle: it names releases, renders and
    sorts manifests, drives the orchestrator through install, upgrade and
    rollback while honouring hook phases, and records every release
    version in a store.

    The handlers are written in a small state monad over a [World] that
    holds the state of the release store, the state of the orchestrator,
    the clock, the name generator and the list of calls made so far to the
    store, the orchestrator and the response stream.  A Go runtime panic
    (nil dereference, index out of range) is an outcome of its own.  The
    store, the orchestrator client, the template engines and the imported
    packages are interfaces of the server: they are records of operations
    here, and the theorems hold for every implementation of them.
    [log.Printf] calls are not modelled, and neither is
    [UninstallRelease], which no property below concerns. *)

From stdpp Require Import base decidable option list gmap strings pretty.
From Stdlib Require Import ZArith Lia.

(** * Protocol messages (pkg/proto/hapi) *)

Inductive Status_Code :=
| Status_UNKNOWN | Status_DEPLOYED | Status_DELETED
| Status_SUPERSEDED | Status_FAILED.

#[global] Instance Status_Code_eq_dec : EqDecision Status_Code.
Proof. solve_decision. Defined.

Inductive Hook_Event :=
| Hook_UNKNOWN
| Hook_PRE_INSTALL | Hook_POST_INSTALL
| Hook_PRE_DELETE | Hook_POST_DELETE
| Hook_PRE_UPGRADE | Hook_POST_UPGRADE
| Hook_PRE_ROLLBACK | Hook_POST_ROLLBACK.

#[global] Instance Hook_Event_eq_dec : EqDecision Hook_Event.
Proof. solve_decision. Defined.

Record Timestamp := mkTimestamp { ts_Seconds : Z; ts_Nanos : Z }.

Record Status := mkStatus {
  status_Code : Status_Code;
  status_Notes : string;
  status_Resources : string }.

(** [Info.Status] is a pointer the handlers always allocate together with
    the [Info]; it is held by value.  [Info] itself and [Chart] are
    pointers [GetReleaseStatus] tests against nil, so they are options. *)
Record Info := mkInfo {
  info_Status : Status;
  info_FirstDeployed : option Timestamp;
  info_LastDeployed : option Timestamp;
  info_Deleted : option Timestamp }.

Record Metadata := mkMetadata {
  md_Name : string;
  md_Version : string;
  md_Engine : string }.

(** [Metadata] is a pointer, nil in a chart that carries none. *)
Record Chart := mkChart {
  chart_Metadata : option Metadata;
  chart_Templates : list (string * string) }.

Record Config := mkConfig { config_Raw : string }.

Record Hook := mkHook {
  hook_Name : string;
  hook_Kind : string;
  hook_Path : string;
  hook_Manifest : string;
  hook_Events : list Hook_Event;
  hook_LastRun : option Timestamp }.

(** [Version] is an int32. *)
Record Release := mkRelease {
  release_Name : string;
  release_Info : option Info;
  release_Chart : option Chart;
  release_Config : option Config;
  release_Manifest : string;
  release_Hooks : list Hook;
  release_Version : Z;
  release_Namespace : string }.

Inductive ListSort_SortBy :=
| ListSort_UNKNOWN | ListSort_NAME | ListSort_LAST_RELEASED.

Inductive ListSort_SortOrder := ListSort_ASC | ListSort_DESC.

(** [Limit] is an int64. *)
Record ListReleasesRequest := mkListReleasesRequest {
  lreq_Limit : Z;
  lreq_Offset : string;
  lreq_SortBy : ListSort_SortBy;
  lreq_Filter : string;
  lreq_SortOrder : ListSort_SortOrder;
  lreq_StatusCodes : list Status_Code }.

Record ListReleasesResponse := mkListReleasesResponse {
  lres_Count : Z;
  lres_Next : string;
  lres_Total : Z;
  lres_Releases : list Release }.

Record GetReleaseStatusRequest := mkGetReleaseStatusRequest {
  sreq_Name : string;
  sreq_Version : Z }.

Record GetReleaseStatusResponse := mkGetReleaseStatusResponse {
  sres_Info : Info;
  sres_Namespace : string }.

Record UpdateReleaseRequest := mkUpdateReleaseRequest {
  ureq_Name : string;
  ureq_Chart : option Chart;
  ureq_Values : option Config;
  ureq_DryRun : bool;
  ureq_DisableHooks : bool }.

Record RollbackReleaseRequest := mkRollbackReleaseRequest {
  rreq_Name : string;
  rreq_DryRun : bool;
  rreq_DisableHooks : bool;
  rreq_Version : Z }.

Record InstallReleaseRequest := mkInstallReleaseRequest {
  ireq_Chart : option Chart;
  ireq_Values : option Config;
  ireq_DryRun : bool;
  ireq_Name : string;
  ireq_DisableHooks : bool;
  ireq_Namespace : string;
  ireq_ReuseName : bool }.

(** [chartutil.ReleaseOptions]. *)
Record ReleaseOptions := mkReleaseOptions {
  opt_Name : string;
  opt_Time : Timestamp;
  opt_Namespace : string }.

(** * Errors

    The package's and the storage driver's sentinel errors are compared
    by identity in Go, so each is a constructor.  An error built on the
    spot keeps its text, or its format string and arguments. *)

Inductive error :=
| errMissingChart
| errMissingRelease
| errIncompatibleVersion
| ErrReleaseNotFound
| ErrReleaseExists
| errors_New (text : string)
| fmt_Errorf (format : string) (args : list fmt_arg)
with fmt_arg :=
| arg_string (s : string)
| arg_int (n : Z)
| arg_error (e : error).

(** * Fixed-width integers *)

Definition int32_wrap (z : Z) : Z := ((z + 2 ^ 31) mod 2 ^ 32 - 2 ^ 31)%Z.
Definition int32_add (a b : Z) : Z := int32_wrap (a + b).
Definition int32_sub (a b : Z) : Z := int32_wrap (a - b).
Definition int32_max : Z := (2 ^ 31 - 1)%Z.
Definition int32_min : Z := (- 2 ^ 31)%Z.

(** * Constants of the server *)

(** releaseNameMaxLen is the maximum length of a release name. *)
Definition releaseNameMaxLen : nat := 14.

Definition notesFileSuffix : string := "NOTES.txt".

(** ListDefaultLimit is the default limit for number of items returned in
    a list. *)
Definition ListDefaultLimit : Z := 512%Z.

(** * Interfaces the server consumes *)

(** The release store, [s.env.Releases].  A pointer result may be nil next
    to an error.  Reads leave the store as it is.  The predicate handed to
    [ListFilterAll] may panic, which is [None].

    The store hands out pointers.  [Written r] is what becomes of the
    store when the server writes through a pointer the store handed out,
    [r] being the release as it reads after the write: a store that hands
    out the records it keeps now keeps [r]; a store that hands out copies
    is as it was. *)
Module storage.
Record Storage (St : Type) := mkStorage {
  Get : string → Z → St → option Release * option error;
  Deployed : string → St → option Release * option error;
  ListFilterAll :
    (Release → option bool) → St → option (list Release * option error);
  Create : Release → St → St * option error;
  Update : Release → St → St * option error;
  Written : Release → St → St }.
Arguments Get {St}.
Arguments Deployed {St}.
Arguments ListFilterAll {St}.
Arguments Create {St}.
Arguments Update {St}.
Arguments Written {St}.
End storage.

(** The orchestrator client, [s.env.KubeClient].  Every call may change
    the cluster.  [ServerGroups] stands for
    [cli.Discovery().ServerGroups()] followed by
    [unversioned.ExtractGroupVersions]: it yields the group versions, or
    nil. *)
Module kube.
Record Client (K : Type) := mkClient {
  Create : string → string → K → K * option error;
  WatchUntilReady : string → string → K → K * option error;
  Update : string → string → string → K → K * option error;
  Get : string → string → K → K * (string * option error);
  APIClient : K → K * option error;
  ServerGroups : K → K * (option (list string) * option error) }.
Arguments Create {K}.
Arguments WatchUntilReady {K}.
Arguments Update {K}.
Arguments Get {K}.
Arguments APIClient {K}.
Arguments ServerGroups {K}.
End kube.

(** [versionSet], built by [newVersionSet]. *)
Definition versionSet := gset string.

Definition newVersionSet (apiVersions : list string) : versionSet :=
  list_to_set apiVersions.

Inductive SortOrder := InstallOrder | UninstallOrder.

(** The [manifest] of the sorter: name and content. *)
Record manifest := mkManifest {
  manifest_name : string;
  manifest_content : string }.

(** A template engine: [Render]. *)
Definition Engine (Values : Type) : Type :=
  Chart → Values → gmap string string * option error.

(** The packages the server imports: [timeconv.Now] (the n-th reading of
    the clock), [moniker] (the n-th generated name), [chartutil],
    [version], [regexp], [sort], the engine yard, the manifest sorter of
    hooks.go, and [Send] of the response stream.  The comparison handed
    to [sort.Sort] may panic, which is [None]. *)
Record Library (Values : Type) := mkLibrary {
  timeconv_Now : nat → Timestamp;
  moniker_NameSep : nat → string;
  chartutil_ToRenderValues :
    Chart → option Config → ReleaseOptions → Values * option error;
  EngineYard_Default : Engine Values;
  EngineYard_Get : string → option (Engine Values);
  sortManifests :
    gmap string string → versionSet → SortOrder →
    list Hook * list manifest * option error;
  version_IsCompatible : string → string → bool;
  version_Version : string;
  regexp_Compile : string → option (string → bool) * option error;
  sort_Sort :
    (Release → Release → option bool) → list Release → option (list Release);
  stream_Send : ListReleasesResponse → option error }.
Arguments timeconv_Now {Values}.
Arguments moniker_NameSep {Values}.
Arguments chartutil_ToRenderValues {Values}.
Arguments EngineYard_Default {Values}.
Arguments EngineYard_Get {Values}.
Arguments sortManifests {Values}.
Arguments version_IsCompatible {Values}.
Arguments version_Version {Values}.
Arguments regexp_Compile {Values}.
Arguments sort_Sort {Values}.
Arguments stream_Send {Values}.

(** * The world and the monad of the handlers *)

(** A call to the store, the orchestrator or the response stream. *)
Inductive Call :=
| StoreGet (name : string) (version : Z)
| StoreDeployed (name : string)
| StoreListFilterAll
| StoreCreate (r : Release)
| StoreUpdate (r : Release)
| KubeCreate (namespace manifest : string)
| KubeWatchUntilReady (namespace manifest : string)
| KubeUpdate (namespace current target : string)
| KubeGet (namespace manifest : string)
| KubeAPIClient
| KubeServerGroups
| StreamSend (res : ListReleasesResponse).

(** A lookup in the store or a discovery request to the orchestrator. *)
Definition lookup_call (c : Call) : bool :=
  match c with
  | StoreGet _ _ | StoreDeployed _ | StoreListFilterAll
  | KubeAPIClient | KubeServerGroups => true
  | _ => false
  end.

(** A call that writes to the store. *)
Definition store_write_call (c : Call) : bool :=
  match c with
  | StoreCreate _ | StoreUpdate _ => true
  | _ => false
  end.

(** A call that applies hooks or manifests to the orchestrator. *)
Definition apply_call (c : Call) : bool :=
  match c with
  | KubeCreate _ _ | KubeWatchUntilReady _ _ | KubeUpdate _ _ _ => true
  | _ => false
  end.

(** A call that reaches the store. *)
Definition store_call (c : Call) : bool :=
  match c with
  | StoreGet _ _ | StoreDeployed _ | StoreListFilterAll
  | StoreCreate _ | StoreUpdate _ => true
  | _ => false
  end.

(** The manifests handed to the orchestrator's [Create], in order. *)
Definition submitted (calls : list Call) : list string :=
  omap (λ c, match c with KubeCreate _ m => Some m | _ => None end) calls.

(** A runtime panic of Go. *)
Inductive Panic := NilDereference | IndexOutOfRange.

Inductive Outcome (A : Type) :=
| Ok (a : A)
| Panicked (p : Panic).
Arguments Ok {A}.
Arguments Panicked {A}.

Section World.
Context {St K : Type}.

(** The store, the cluster, the number of clock readings and of names
    generated so far, and the calls made so far, oldest first. *)
Record World := mkWorld {
  w_releases : St;
  w_kube : K;
  w_ticks : nat;
  w_names : nat;
  w_calls : list Call }.

Definition M (A : Type) : Type := World → Outcome A * World.

Definition ret {A} (a : A) : M A := λ w, (Ok a, w).

Definition bind {A B} (m : M A) (f : A → M B) : M B :=
  λ w, match m w with
       | (Ok a, w') => f a w'
       | (Panicked p, w') => (Panicked p, w')
       end.

Definition panic {A} (p : Panic) : M A := λ w, (Panicked p, w).

(** Dereference of a pointer. *)
Definition deref {A} (ptr : option A) : M A :=
  match ptr with
  | Some a => ret a
  | None => panic NilDereference
  end.

Definition call (c : Call) : M unit :=
  λ w, (Ok tt, mkWorld (w_releases w) (w_kube w) (w_ticks w) (w_names w)
                       (w_calls w ++ [c])).

Definition store_read {A} (f : St → A) : M A :=
  λ w, (Ok (f (w_releases w)), w).

Definition store_write {A} (f : St → St * A) : M A :=
  λ w, let '(st, a) := f (w_releases w) in
       (Ok a, mkWorld st (w_kube w) (w_ticks w) (w_names w) (w_calls w)).

Definition kube_call {A} (f : K → K * A) : M A :=
  λ w, let '(k, a) := f (w_kube w) in
       (Ok a, mkWorld (w_releases w) k (w_ticks w) (w_names w) (w_calls w)).

Definition tick : M nat :=
  λ w, (Ok (w_ticks w),
        mkWorld (w_releases w) (w_kube w) (S (w_ticks w)) (w_names w)
                (w_calls w)).

Definition fresh : M nat :=
  λ w, (Ok (w_names w),
        mkWorld (w_releases w) (w_kube w) (w_ticks w) (S (w_names w))
                (w_calls w)).

End World.
Arguments World : clear implicits.
Arguments M : clear implicits.

#[global] Instance M_ret {St K} : MRet (M St K) := @ret St K.
#[global] Instance M_bind {St K} : MBind (M St K) :=
  λ A B f m, @bind St K A B m f.

(** * Helpers for strings, slices and record fields *)

Definition newline : string := String (Ascii.ascii_of_nat 10) EmptyString.

(** [strings.HasSuffix]. *)
Definition strings_HasSuffix (s suffix : string) : bool :=
  let n := String.length s in
  let k := String.length suffix in
  (k <=? n)%nat && String.eqb (String.substring (n - k) k s) suffix.

Definition set_status_Code (c : Status_Code) (s : Status) : Status :=
  mkStatus c (status_Notes s) (status_Resources s).

Definition set_status_Notes (n : string) (s : Status) : Status :=
  mkStatus (status_Code s) n (status_Resources s).

Definition set_status_Resources (r : string) (s : Status) : Status :=
  mkStatus (status_Code s) (status_Notes s) r.

Definition set_info_Status (s : Status) (i : Info) : Info :=
  mkInfo s (info_FirstDeployed i) (info_LastDeployed i) (info_Deleted i).

Definition set_release_Info (i : option Info) (r : Release) : Release :=
  mkRelease (release_Name r) i (release_Chart r) (release_Config r)
            (release_Manifest r) (release_Hooks r) (release_Version r)
            (release_Namespace r).

Definition set_release_Hooks (hs : list Hook) (r : Release) : Release :=
  mkRelease (release_Name r) (release_Info r) (release_Chart r)
            (release_Config r) (release_Manifest r) hs (release_Version r)
            (release_Namespace r).

Definition set_hook_LastRun (t : option Timestamp) (h : Hook) : Hook :=
  mkHook (hook_Name h) (hook_Kind h) (hook_Path h) (hook_Manifest h)
         (hook_Events h) t.

(** The status code of a release, when its [Info] is there. *)
Definition release_code (r : Release) : option Status_Code :=
  (λ i, status_Code (info_Status i)) <$> release_Info r.

(** ** The hook names and the [events] table of hooks.go *)

(** Modelled from the spec: hooks.go, which declares the eight hook names
    and the [events] map from a name to its [Hook_Event], is not among the
    sources; the spec lists the events as pre-install, post-install,
    pre-delete, post-delete, pre-upgrade, post-upgrade, pre-rollback and
    post-rollback. *)
Definition preInstall : string := "pre-install".
Definition postInstall : string := "post-install".
Definition preDelete : string := "pre-delete".
Definition postDelete : string := "post-delete".
Definition preUpgrade : string := "pre-upgrade".
Definition postUpgrade : string := "post-upgrade".
Definition preRollback : string := "pre-rollback".
Definition postRollback : string := "post-rollback".

(** Modelled from the spec: the [events] map of hooks.go, from each of
    the eight hook names to its event; a name outside the map has no
    event. *)
Definition events (hook : string) : option Hook_Event :=
  if decide (hook = preInstall) then Some Hook_PRE_INSTALL
  else if decide (hook = postInstall) then Some Hook_POST_INSTALL
  else if decide (hook = preDelete) then Some Hook_PRE_DELETE
  else if decide (hook = postDelete) then Some Hook_POST_DELETE
  else if decide (hook = preUpgrade) then Some Hook_PRE_UPGRADE
  else if decide (hook = postUpgrade) then Some Hook_POST_UPGRADE
  else if decide (hook = preRollback) then Some Hook_PRE_ROLLBACK
  else if decide (hook = postRollback) then Some Hook_POST_ROLLBACK
  else None.

(** The request context: [metadata.FromContext] finds the metadata of the
    request, or nothing. *)
Definition ctx_Context := option (gmap string (list string)).

Record InstallReleaseResponse := mkInstallReleaseResponse {
  ires_Release : Release }.

Record UpdateReleaseResponse := mkUpdateReleaseResponse {
  ures_Release : Release }.

Record RollbackReleaseResponse := mkRollbackReleaseResponse {
  rres_Release : Release }.

(** * The release server *)

Section ReleaseServer.
Context {St K Values : Type}.
Variable Releases : storage.Storage St.
Variable KubeClient : kube.Client K.
Variable lib : Library Values.

Abbreviation Act := (M St K).

(** ** Calls to the collaborators, each recorded in [w_calls] *)

Definition Releases_Get (name : string) (version : Z)
  : Act (option Release * option error) :=
  call (StoreGet name version);;
  store_read (storage.Get Releases name version).

Definition Releases_Deployed (name : string)
  : Act (option Release * option error) :=
  call (StoreDeployed name);;
  store_read (storage.Deployed Releases name).

Definition Releases_ListFilterAll (filter : Release → option bool)
  : Act (list Release * option error) :=
  call StoreListFilterAll;;
  res ← store_read (storage.ListFilterAll Releases filter);
  match res with
  | Some r => mret r
  | None => panic NilDereference
  end.

Definition Releases_Create (r : Release) : Act (option error) :=
  call (StoreCreate r);;
  store_write (storage.Create Releases r).

Definition Releases_Update (r : Release) : Act (option error) :=
  call (StoreUpdate r);;
  store_write (storage.Update Releases r).

(** A write through a pointer the store handed out, after which the
    release reads [r].  It is no call to the store. *)
Definition Releases_written (r : Release) : Act unit :=
  store_write (λ st, (storage.Written Releases r st, tt)).

Definition kubeCli_Create (namespace manifest : string) : Act (option error) :=
  call (KubeCreate namespace manifest);;
  kube_call (kube.Create KubeClient namespace manifest).

Definition kubeCli_WatchUntilReady (namespace manifest : string)
  : Act (option error) :=
  call (KubeWatchUntilReady namespace manifest);;
  kube_call (kube.WatchUntilReady KubeClient namespace manifest).

Definition kubeCli_Update (namespace current target : string)
  : Act (option error) :=
  call (KubeUpdate namespace current target);;
  kube_call (kube.Update KubeClient namespace current target).

Definition kubeCli_Get (namespace manifest : string)
  : Act (string * option error) :=
  call (KubeGet namespace manifest);;
  kube_call (kube.Get KubeClient namespace manifest).

Definition kubeCli_APIClient : Act (option error) :=
  call KubeAPIClient;;
  kube_call (kube.APIClient KubeClient).

Definition kubeCli_ServerGroups : Act (option (list string) * option error) :=
  call KubeServerGroups;;
  kube_call (kube.ServerGroups KubeClient).

Definition stream_send (res : ListReleasesResponse) : Act (option error) :=
  call (StreamSend res);;
  mret (stream_Send lib res).

(** [timeconv.Now()]. *)
Definition Now : Act Timestamp :=
  n ← tick; mret (timeconv_Now lib n).

(** ** Version check *)

Definition getVersion (c : ctx_Context) : Act string :=
  match c with
  | Some md =>
      match md !! "x-helm-api-client" with
      | Some v =>
          match v with
          | v0 :: _ => mret v0
          | [] => panic IndexOutOfRange
          end
      | None => mret EmptyString
      end
  | None => mret EmptyString
  end.

Definition checkClientVersion (c : ctx_Context) : Act bool :=
  v ← getVersion c;
  mret (version_IsCompatible lib v (version_Version lib)).

(** ** ListReleases *)

(** The predicate handed to [ListFilterAll]: the loop over
    [req.StatusCodes], reading [r.Info.Status.Code] at each turn. *)
Fixpoint statusFilter (codes : list Status_Code) (r : Release) : option bool :=
  match codes with
  | [] => Some false
  | sc :: rest =>
      match release_Info r with
      | None => None
      | Some i =>
          if decide (sc = status_Code (info_Status i)) then Some true
          else statusFilter rest r
      end
  end.

Definition filterReleases (filter : string) (rels : list Release)
  : Act (list Release * option error) :=
  let '(preg, err) := regexp_Compile lib filter in
  match err with
  | Some e => mret (rels, Some e)
  | None =>
      preg ← deref preg;
      mret (List.filter (λ r, preg (release_Name r)) rels, None)
  end.

(** [Less] of [byName] and of [byDate]. *)
Definition byName_Less (p q : Release) : option bool :=
  Some (String.ltb (release_Name p) (release_Name q)).

Definition byDate_Less (p q : Release) : option bool :=
  ip ← release_Info p;
  tp ← info_LastDeployed ip;
  iq ← release_Info q;
  tq ← info_LastDeployed iq;
  Some (ts_Seconds tp <? ts_Seconds tq)%Z.

Definition sort (less : Release → Release → option bool) (rels : list Release)
  : Act (list Release) :=
  match sort_Sort lib less rels with
  | Some rels' => mret rels'
  | None => panic NilDereference
  end.

(** The offset loop: the index of the last release named [offset], from
    [i] when there is none. *)
Fixpoint offsetIndex (offset : string) (rels : list Release) (ii i : Z) : Z :=
  match rels with
  | [] => i
  | cur :: rest =>
      offsetIndex offset rest (ii + 1)
                  (if decide (release_Name cur = offset) then ii else i)
  end.

(** [rels[i]] for an int64 index. *)
Definition index (rels : list Release) (i : Z) : Act Release :=
  if decide (0 ≤ i)%Z then
    match rels !! Z.to_nat i with
    | Some r => mret r
    | None => panic IndexOutOfRange
    end
  else panic IndexOutOfRange.

Definition len {A} (l : list A) : Z := Z.of_nat (length l).

(** The first half of [ListReleases], up to and with the offset: the
    total and the filtered, sorted, offset-adjusted releases, or the error
    the handler returns. *)
Definition ListReleases_select (c : ctx_Context) (req : ListReleasesRequest)
  : Act (Z * list Release * option error) :=
  ok ← checkClientVersion c;
  if negb ok then mret (0%Z, [], Some errIncompatibleVersion) else
  let StatusCodes :=
    if decide (length (lreq_StatusCodes req) = 0) then [Status_DEPLOYED]
    else lreq_StatusCodes req in
  '(rels, err) ← Releases_ListFilterAll (statusFilter StatusCodes);
  match err with
  | Some e => mret (0%Z, [], Some e)
  | None =>
      '(rels, err) ←
        (if decide (String.length (lreq_Filter req) ≠ 0)
         then filterReleases (lreq_Filter req) rels
         else mret (rels, None));
      match err with
      | Some e => mret (0%Z, [], Some e)
      | None =>
          let total := len rels in
          rels ← match lreq_SortBy req with
                 | ListSort_NAME => sort byName_Less rels
                 | ListSort_LAST_RELEASED => sort byDate_Less rels
                 | ListSort_UNKNOWN => mret rels
                 end;
          let rels := match lreq_SortOrder req with
                      | ListSort_DESC => reverse rels
                      | ListSort_ASC => rels
                      end in
          if decide (lreq_Offset req ≠ EmptyString) then
            let i := offsetIndex (lreq_Offset req) rels 0 (-1) in
            if decide (i = -1)%Z then
              mret (total, [],
                    Some (fmt_Errorf "offset %q not found"
                                     [arg_string (lreq_Offset req)]))
            else if decide (len rels < i)%Z then
              mret (total, [],
                    Some (fmt_Errorf "no items after %q"
                                     [arg_string (lreq_Offset req)]))
            else mret (total, drop (Z.to_nat i) rels, None)
          else mret (total, rels, None)
      end
  end.

(** The second half: the default limit, the cut of the page and the
    response sent on the stream. *)
Definition ListReleases_page (Limit total : Z) (rels : list Release)
  : Act (option error) :=
  let l := len rels in
  let Limit := if decide (Limit = 0)%Z then ListDefaultLimit else Limit in
  '(next, rels, l) ←
    (if decide (Limit < l)%Z then
       r ← index rels Limit;
       let rels := take (Z.to_nat Limit) rels in
       mret (release_Name r, rels, len rels)
     else mret (EmptyString, rels, l));
  stream_send (mkListReleasesResponse l next total rels).

Definition ListReleases (c : ctx_Context) (req : ListReleasesRequest)
  : Act (option error) :=
  '(total, rels, err) ← ListReleases_select c req;
  match err with
  | Some e => mret (Some e)
  | None => ListReleases_page (lreq_Limit req) total rels
  end.

(** ** GetReleaseStatus *)

(** [rel.Info.Status.Resources = resp] writes through the pointer the
    store handed out: the write shows in the response, which shares the
    [Info] with the release, and in the store if the store keeps the
    release it handed out. *)
Definition GetReleaseStatus (c : ctx_Context) (req : GetReleaseStatusRequest)
  : Act (option GetReleaseStatusResponse * option error) :=
  ok ← checkClientVersion c;
  if negb ok then mret (None, Some errIncompatibleVersion) else
  if decide (sreq_Name req = EmptyString) then mret (None, Some errMissingRelease)
  else
    '(rel, err) ←
      (if decide (sreq_Version req ≤ 0)%Z then
         '(rel, err) ← Releases_Deployed (sreq_Name req);
         mret (rel, (λ e, fmt_Errorf "getting deployed release '%s': %s"
                            [arg_string (sreq_Name req); arg_error e]) <$> err)
       else
         '(rel, err) ← Releases_Get (sreq_Name req) (sreq_Version req);
         mret (rel, (λ e, fmt_Errorf "getting release '%s' (v%d): %s"
                            [arg_string (sreq_Name req);
                             arg_int (sreq_Version req); arg_error e]) <$> err));
    match err with
    | Some e => mret (None, Some e)
    | None =>
        rel ← deref rel;
        match release_Info rel with
        | None => mret (None, Some (errors_New "release info is missing"))
        | Some info =>
            match release_Chart rel with
            | None => mret (None, Some (errors_New "release chart is missing"))
            | Some _ =>
                let sc := status_Code (info_Status info) in
                let statusResp :=
                  mkGetReleaseStatusResponse info (release_Namespace rel) in
                '(resp, err) ←
                  kubeCli_Get (release_Namespace rel) (release_Manifest rel);
                if bool_decide (sc = Status_DELETED)
                   || bool_decide (sc = Status_FAILED)
                then mret (Some statusResp, None)
                else
                  match err with
                  | Some e => mret (None, Some e)
                  | None =>
                      let info' :=
                        set_info_Status
                          (set_status_Resources resp (info_Status info)) info in
                      Releases_written (set_release_Info (Some info') rel);;
                      mret (Some (mkGetReleaseStatusResponse
                                    info' (release_Namespace rel)), None)
                  end
            end
        end
    end.

(** ** execHook *)

(** The inner loop of [execHook]: [found] after the walk over
    [h.Events]. *)
Definition hookFound (code : Hook_Event) (h : Hook) : bool :=
  fold_left (λ found e, if decide (e = code) then true else found)
            (hook_Events h) false.

(** The outer loop.  The hooks are pointers, so setting [h.LastRun] is
    seen by whoever holds the slice: the loop hands the hooks back as it
    leaves them. *)
Fixpoint execHook_range (hs : list Hook) (namespace : string)
    (code : Hook_Event) : Act (list Hook * option error) :=
  match hs with
  | [] => mret ([], None)
  | h :: rest =>
      if negb (hookFound code h) then
        '(rest', err) ← execHook_range rest namespace code;
        mret (h :: rest', err)
      else
        err ← kubeCli_Create namespace (hook_Manifest h);
        match err with
        | Some e => mret (h :: rest, Some e)
        | None =>
            err ← kubeCli_WatchUntilReady namespace (hook_Manifest h);
            match err with
            | Some e => mret (h :: rest, Some e)
            | None =>
                now ← Now;
                '(rest', err) ← execHook_range rest namespace code;
                mret (set_hook_LastRun (Some now) h :: rest', err)
            end
        end
  end.

Definition execHook (hs : list Hook) (name namespace hook : string)
  : Act (list Hook * option error) :=
  match events hook with
  | None => mret (hs, Some (fmt_Errorf "unknown hook %q" [arg_string hook]))
  | Some code => execHook_range hs namespace code
  end.

(** ** Rendering *)

(** [ch.Metadata.Engine] is read with no test of [ch.Metadata]. *)
Definition engine (ch : Chart) : Act (Engine Values) :=
  let renderer := EngineYard_Default lib in
  md ← deref (chart_Metadata ch);
  if decide (md_Engine md ≠ EmptyString) then
    match EngineYard_Get lib (md_Engine md) with
    | Some r => mret r
    | None => mret renderer
    end
  else mret renderer.

Definition getVersionSet : Act (versionSet * option error) :=
  let defVersions := newVersionSet ["v1"] in
  err ← kubeCli_APIClient;
  match err with
  | Some e => mret (defVersions, Some e)
  | None =>
      '(groups, err) ← kubeCli_ServerGroups;
      match err with
      | Some e => mret (defVersions, Some e)
      | None =>
          match groups with
          | None => mret (defVersions, None)
          | Some versions => mret (newVersionSet versions, None)
          end
      end
  end.

(** The document of the valid manifests: for each one the separator, the
    source comment and the content. *)
Fixpoint manifestDoc (manifests : list manifest) : string :=
  match manifests with
  | [] => EmptyString
  | m :: rest =>
      (newline +:+ "---" +:+ newline +:+ "# Source: " +:+ manifest_name m
       +:+ newline +:+ manifest_content m) +:+ manifestDoc rest
  end.

(** Go ranges over the map of rendered files in no fixed order; here the
    order is the map's own. *)
Definition renderResources (ch : Chart) (values : Values)
  : Act (list Hook * string * string * option error) :=
  renderer ← engine ch;
  let '(files, err) := renderer ch values in
  match err with
  | Some e => mret ([], EmptyString, EmptyString, Some e)
  | None =>
      let notes :=
        map_fold (λ k v notes,
                  if strings_HasSuffix k notesFileSuffix then v else notes)
                 EmptyString files in
      let files :=
        filter (λ kv, strings_HasSuffix kv.1 notesFileSuffix = false) files in
      '(vs, err) ← getVersionSet;
      match err with
      | Some e =>
          mret ([], EmptyString, EmptyString,
                Some (fmt_Errorf "Could not get apiVersions from Kubernetes: %s"
                                 [arg_error e]))
      | None =>
          let '(hooks, manifests, err) := sortManifests lib files vs InstallOrder in
          match err with
          | Some e => mret ([], EmptyString, EmptyString, Some e)
          | None => mret (hooks, manifestDoc manifests, notes, None)
          end
      end
  end.

(** ** Pieces shared by install, upgrade and rollback *)

(** [r.Info.Status.Code = c]. *)
Definition setCode (c : Status_Code) (r : Release) : Act Release :=
  info ← deref (release_Info r);
  mret (set_release_Info
          (Some (set_info_Status (set_status_Code c (info_Status info)) info)) r).

(** [r.Info.Status.Notes = notesTxt] when [len(notesTxt) > 0]. *)
Definition withNotes (notesTxt : string) (i : Info) : Info :=
  if decide (0 < String.length notesTxt)
  then set_info_Status (set_status_Notes notesTxt (info_Status i)) i
  else i.

(** A hook phase of a handler: unless hooks are disabled, [execHook] on
    the hooks of [r]; the release comes back with its hooks as the phase
    left them. *)
Definition hookPhase (DisableHooks : bool) (r : Release) (hook : string)
  : Act (Release * option error) :=
  if negb DisableHooks then
    '(hs, err) ← execHook (release_Hooks r) (release_Name r)
                          (release_Namespace r) hook;
    mret (set_release_Hooks hs r, err)
  else mret (r, None).

Definition performKubeUpdate (currentRelease targetRelease : Release)
  : Act (option error) :=
  kubeCli_Update (release_Namespace targetRelease)
                 (release_Manifest currentRelease)
                 (release_Manifest targetRelease).

(** ** UpdateRelease *)

(** prepareUpdate builds an updated release for an update operation: the
    current and the updated release or, next to an error, neither. *)
Definition prepareUpdate (req : UpdateReleaseRequest)
  : Act (option (Release * Release) * option error) :=
  if decide (ureq_Name req = EmptyString) then mret (None, Some errMissingRelease)
  else
    match ureq_Chart req with
    | None => mret (None, Some errMissingChart)
    | Some chart =>
        '(currentRelease, err) ← Releases_Deployed (ureq_Name req);
        match err with
        | Some e => mret (None, Some e)
        | None =>
            ts ← Now;
            currentRelease ← deref currentRelease;
            let options :=
              mkReleaseOptions (ureq_Name req) ts
                               (release_Namespace currentRelease) in
            let '(valuesToRender, err) :=
              chartutil_ToRenderValues lib chart (ureq_Values req) options in
            match err with
            | Some e => mret (None, Some e)
            | None =>
                '(hooks, manifestDoc, notesTxt, err) ←
                  renderResources chart valuesToRender;
                match err with
                | Some e => mret (None, Some e)
                | None =>
                    currentInfo ← deref (release_Info currentRelease);
                    let updatedRelease :=
                      mkRelease
                        (ureq_Name req)
                        (Some (withNotes notesTxt
                                 (mkInfo
                                    (mkStatus Status_UNKNOWN EmptyString EmptyString)
                                    (info_FirstDeployed currentInfo)
                                    (Some ts) None)))
                        (Some chart)
                        (ureq_Values req)
                        manifestDoc
                        hooks
                        (int32_add (release_Version currentRelease) 1)
                        (release_Namespace currentRelease) in
                    mret (Some (currentRelease, updatedRelease), None)
                end
            end
        end
    end.

(** The response points at the updated release, so it shows the hooks and
    the status as [performUpdate] leaves them. *)
Definition performUpdate (originalRelease updatedRelease : Release)
    (req : UpdateReleaseRequest)
  : Act (option UpdateReleaseResponse * option error) :=
  if ureq_DryRun req then
    mret (Some (mkUpdateReleaseResponse updatedRelease), None)
  else
    '(updatedRelease, err) ←
      hookPhase (ureq_DisableHooks req) updatedRelease preUpgrade;
    match err with
    | Some e => mret (Some (mkUpdateReleaseResponse updatedRelease), Some e)
    | None =>
        err ← performKubeUpdate originalRelease updatedRelease;
        match err with
        | Some e => mret (None, Some e)
        | None =>
            '(updatedRelease, err) ←
              hookPhase (ureq_DisableHooks req) updatedRelease postUpgrade;
            match err with
            | Some e =>
                mret (Some (mkUpdateReleaseResponse updatedRelease), Some e)
            | None =>
                originalRelease ← setCode Status_SUPERSEDED originalRelease;
                err ← Releases_Update originalRelease;
                match err with
                | Some e =>
                    mret (None,
                          Some (fmt_Errorf "Update of %s failed: %s"
                                  [arg_string (release_Name originalRelease);
                                   arg_error e]))
                | None =>
                    updatedRelease ← setCode Status_DEPLOYED updatedRelease;
                    mret (Some (mkUpdateReleaseResponse updatedRelease), None)
                end
            end
        end
    end.

(** [Create(updatedRelease)] stores the release the response points at. *)
Definition UpdateRelease (c : ctx_Context) (req : UpdateReleaseRequest)
  : Act (option UpdateReleaseResponse * option error) :=
  ok ← checkClientVersion c;
  if negb ok then mret (None, Some errIncompatibleVersion) else
  '(prepared, err) ← prepareUpdate req;
  match err with
  | Some e => mret (None, Some e)
  | None =>
      '(currentRelease, updatedRelease) ← deref prepared;
      '(res, err) ← performUpdate currentRelease updatedRelease req;
      match err with
      | Some e => mret (None, Some e)
      | None =>
          res ← deref res;
          if negb (ureq_DryRun req) then
            err ← Releases_Create (ures_Release res);
            match err with
            | Some e => mret (None, Some e)
            | None => mret (Some res, None)
            end
          else mret (Some res, None)
      end
  end.

(** ** RollbackRelease *)

(** prepareRollback finds the previous release and prepares a new release
    object with the previous release's configuration. *)
Definition prepareRollback (req : RollbackReleaseRequest)
  : Act (option (Release * Release) * option error) :=
  if decide (rreq_Name req = EmptyString) then mret (None, Some errMissingRelease)
  else
    '(currentRelease, err) ← Releases_Deployed (rreq_Name req);
    match err with
    | Some e => mret (None, Some e)
    | None =>
        currentRelease ← deref currentRelease;
        '(previousRelease, err) ←
          Releases_Get (rreq_Name req)
                       (int32_sub (release_Version currentRelease) 1);
        match err with
        | Some e => mret (None, Some e)
        | None =>
            ts ← Now;
            previousRelease ← deref previousRelease;
            currentInfo ← deref (release_Info currentRelease);
            previousInfo ← deref (release_Info previousRelease);
            let targetRelease :=
              mkRelease
                (rreq_Name req)
                (Some (mkInfo
                         (mkStatus Status_UNKNOWN
                                   (status_Notes (info_Status previousInfo))
                                   EmptyString)
                         (info_FirstDeployed currentInfo)
                         (Some ts) None))
                (release_Chart previousRelease)
                (release_Config previousRelease)
                (release_Manifest previousRelease)
                (release_Hooks previousRelease)
                (int32_add (release_Version currentRelease) 1)
                (release_Namespace currentRelease) in
            mret (Some (currentRelease, targetRelease), None)
        end
    end.

Definition performRollback (currentRelease targetRelease : Release)
    (req : RollbackReleaseRequest)
  : Act (option RollbackReleaseResponse * option error) :=
  if rreq_DryRun req then
    mret (Some (mkRollbackReleaseResponse targetRelease), None)
  else
    '(targetRelease, err) ←
      hookPhase (rreq_DisableHooks req) targetRelease preRollback;
    match err with
    | Some e => mret (Some (mkRollbackReleaseResponse targetRelease), Some e)
    | None =>
        err ← performKubeUpdate currentRelease targetRelease;
        match err with
        | Some e => mret (None, Some e)
        | None =>
            '(targetRelease, err) ←
              hookPhase (rreq_DisableHooks req) targetRelease postRollback;
            match err with
            | Some e =>
                mret (Some (mkRollbackReleaseResponse targetRelease), Some e)
            | None =>
                currentRelease ← setCode Status_SUPERSEDED currentRelease;
                err ← Releases_Update currentRelease;
                match err with
                | Some e =>
                    mret (None,
                          Some (fmt_Errorf "Update of %s failed: %s"
                                  [arg_string (release_Name currentRelease);
                                   arg_error e]))
                | None =>
                    targetRelease ← setCode Status_DEPLOYED targetRelease;
                    mret (Some (mkRollbackReleaseResponse targetRelease), None)
                end
            end
        end
    end.

Definition RollbackRelease (c : ctx_Context) (req : RollbackReleaseRequest)
  : Act (option RollbackReleaseResponse * option error) :=
  ok ← checkClientVersion c;
  if negb ok then mret (None, Some errIncompatibleVersion) else
  '(prepared, err) ← prepareRollback req;
  match err with
  | Some e => mret (None, Some e)
  | None =>
      '(currentRelease, targetRelease) ← deref prepared;
      '(res, err) ← performRollback currentRelease targetRelease req;
      match err with
      | Some e => mret (None, Some e)
      | None =>
          res ← deref res;
          if negb (rreq_DryRun req) then
            err ← Releases_Create (rres_Release res);
            match err with
            | Some e => mret (None, Some e)
            | None => mret (Some res, None)
            end
          else mret (Some res, None)
      end
  end.

(** ** InstallRelease *)

(** The errors of [uniqName]. *)
Definition errNameTooLong (start : string) : error :=
  fmt_Errorf "release name %q exceeds max length of %d"
             [arg_string start; arg_int (Z.of_nat releaseNameMaxLen)].

Definition errNameInUse : error :=
  errors_New "cannot re-use a name that is still in use".

Definition errNameExists (start : string) : error :=
  fmt_Errorf "a release named %q already exists" [arg_string start].

Definition errNoName : error :=
  errors_New "no available release name found".

(** The loop of [uniqName] over generated names, [tries] turns left. *)
Fixpoint uniqName_generate (tries : nat) : Act (string * option error) :=
  match tries with
  | O => mret ("ERROR", Some errNoName)
  | S tries' =>
      n ← fresh;
      let name := moniker_NameSep lib n in
      let name :=
        if decide (releaseNameMaxLen < String.length name)
        then String.substring 0 releaseNameMaxLen name
        else name in
      '(_, err) ← Releases_Get name 1;
      match err with
      | Some ErrReleaseNotFound => mret (name, None)
      | _ => uniqName_generate tries'
      end
  end.

(** If a name is supplied, we check to see if that name is taken. If not,
    it is granted. If reuse is true and a deleted release with that name
    exists, we re-grant it. Otherwise, an error is returned. *)
Definition uniqName (start : string) (reuse : bool)
  : Act (string * option error) :=
  if decide (start ≠ EmptyString) then
    if decide (releaseNameMaxLen < String.length start) then
      mret (EmptyString, Some (errNameTooLong start))
    else
      '(rel, err) ← Releases_Get start 1;
      match err with
      | Some ErrReleaseNotFound => mret (start, None)
      | _ =>
          rel ← deref rel;
          info ← deref (release_Info rel);
          let st := status_Code (info_Status info) in
          if reuse && (bool_decide (st = Status_DELETED)
                       || bool_decide (st = Status_FAILED))
          then mret (start, None)
          else if reuse then mret (EmptyString, Some errNameInUse)
          else mret (EmptyString, Some (errNameExists start))
      end
  else uniqName_generate 5.

(** prepareRelease builds a release for an install operation. *)
Definition prepareRelease (req : InstallReleaseRequest)
  : Act (option Release * option error) :=
  match ireq_Chart req with
  | None => mret (None, Some errMissingChart)
  | Some chart =>
      '(name, err) ← uniqName (ireq_Name req) (ireq_ReuseName req);
      match err with
      | Some e => mret (None, Some e)
      | None =>
          ts ← Now;
          let options := mkReleaseOptions name ts (ireq_Namespace req) in
          let '(valuesToRender, err) :=
            chartutil_ToRenderValues lib chart (ireq_Values req) options in
          match err with
          | Some e => mret (None, Some e)
          | None =>
              '(hooks, manifestDoc, notesTxt, err) ←
                renderResources chart valuesToRender;
              match err with
              | Some e => mret (None, Some e)
              | None =>
                  let rel :=
                    mkRelease
                      name
                      (Some (withNotes notesTxt
                               (mkInfo
                                  (mkStatus Status_UNKNOWN EmptyString EmptyString)
                                  (Some ts) (Some ts) None)))
                      (Some chart)
                      (ireq_Values req)
                      manifestDoc
                      hooks
                      1%Z
                      (ireq_Namespace req) in
                  mret (Some rel, None)
              end
          end
      end
  end.

(** A failure to store the release is logged and goes no further. *)
Definition recordRelease (r : Release) (reuse : bool) : Act unit :=
  if reuse then
    _ ← Releases_Update r; mret tt
  else
    _ ← Releases_Create r; mret tt.

(** performRelease runs a release. *)
Definition performRelease (r : Release) (req : InstallReleaseRequest)
  : Act (InstallReleaseResponse * option error) :=
  if ireq_DryRun req then mret (mkInstallReleaseResponse r, None)
  else
    '(r, err) ← hookPhase (ireq_DisableHooks req) r preInstall;
    match err with
    | Some e => mret (mkInstallReleaseResponse r, Some e)
    | None =>
        err ← kubeCli_Create (release_Namespace r) (release_Manifest r);
        match err with
        | Some e =>
            r ← setCode Status_FAILED r;
            recordRelease r (ireq_ReuseName req);;
            mret (mkInstallReleaseResponse r,
                  Some (fmt_Errorf "release %s failed: %s"
                          [arg_string (release_Name r); arg_error e]))
        | None =>
            '(r, err) ← hookPhase (ireq_DisableHooks req) r postInstall;
            match err with
            | Some e =>
                r ← setCode Status_FAILED r;
                recordRelease r (ireq_ReuseName req);;
                mret (mkInstallReleaseResponse r, Some e)
            | None =>
                r ← setCode Status_DEPLOYED r;
                recordRelease r (ireq_ReuseName req);;
                mret (mkInstallReleaseResponse r, None)
            end
        end
    end.

Definition InstallRelease (c : ctx_Context) (req : InstallReleaseRequest)
  : Act (option InstallReleaseResponse * option error) :=
  ok ← checkClientVersion c;
  if negb ok then mret (None, Some errIncompatibleVersion) else
  '(rel, err) ← prepareRelease req;
  match err with
  | Some e => mret (None, Some e)
  | None =>
      rel ← deref rel;
      '(res, err) ← performRelease rel req;
      mret (Some res, err)
  end.

End ReleaseServer.

(** * Notions the properties are stated with *)

Section Notions.
Context {St K Values : Type}.
Variable Releases : storage.Storage St.
Variable KubeClient : kube.Client K.
Variable lib : Library Values.
Implicit Types w : World St K.

(** The world once a call has been recorded. *)
Definition called (c : Call) w : World St K :=
  mkWorld (w_releases w) (w_kube w) (w_ticks w) (w_names w) (w_calls w ++ [c]).

(** The world with another state of the orchestrator or of the store. *)
Definition with_kube (k : K) w : World St K :=
  mkWorld (w_releases w) k (w_ticks w) (w_names w) (w_calls w).

Definition with_releases (st : St) w : World St K :=
  mkWorld st (w_kube w) (w_ticks w) (w_names w) (w_calls w).

(** An action stays within [P] when it leaves the store as it is and
    makes only calls that [P] accepts, whatever its outcome. *)
Definition Within {A} (P : Call → bool) (m : M St K A) : Prop :=
  ∀ w, w_releases (m w).2 = w_releases w ∧
       ∃ d, w_calls (m w).2 = w_calls w ++ d ∧ Forall (λ c, P c = true) d.

(** What a hook phase between [w] and [w'] leaves of a hook it went
    past: a hook without the event is as it was; a hook with the event
    became ready and carries a reading of the clock taken during the
    phase. *)
Definition ranAs (code : Hook_Event) w w' (h h' : Hook) : Prop :=
  if decide (code ∈ hook_Events h) then
    ∃ n, w_ticks w ≤ n < w_ticks w' ∧
         h' = set_hook_LastRun (Some (timeconv_Now lib n)) h
  else h' = h.

(** The calls of a phase for the hooks it went past: for each hook with
    the event, its creation and then the wait for it. *)
Definition completedCalls (namespace : string) (code : Hook_Event)
    (hs : list Hook) : list Call :=
  hs ≫= (λ h, if decide (code ∈ hook_Events h)
              then [KubeCreate namespace (hook_Manifest h);
                    KubeWatchUntilReady namespace (hook_Manifest h)]
              else []).

(** The orchestrator, from the state [k], once the hook [h] has been
    created and waited for. *)
Definition hookReady (namespace : string) (h : Hook) (k : K) : K :=
  (kube.WatchUntilReady KubeClient namespace (hook_Manifest h)
     (kube.Create KubeClient namespace (hook_Manifest h) k).1).1.

(** The orchestrator, from the state [k], once a phase has gone past the
    hooks [hs]: each hook carrying the event has been created and waited
    for, in list order. *)
Definition kubeAfter (namespace : string) (code : Hook_Event)
    (hs : list Hook) (k : K) : K :=
  fold_left (λ k h, if decide (code ∈ hook_Events h)
                    then hookReady namespace h k else k) hs k.

(** From the state [k] on, the orchestrator answers without an error the
    creation of and the wait for each hook of [hs] carrying the event,
    each in the state the calls before it have left. *)
Fixpoint becameReady (namespace : string) (code : Hook_Event)
    (hs : list Hook) (k : K) : bool :=
  match hs with
  | [] => true
  | h :: rest =>
      if decide (code ∈ hook_Events h) then
        let created :=
          kube.Create KubeClient namespace (hook_Manifest h) k in
        let waited :=
          kube.WatchUntilReady KubeClient namespace (hook_Manifest h)
                               created.1 in
        match created.2, waited.2 with
        | None, None => becameReady namespace code rest waited.1
        | _, _ => false
        end
      else becameReady namespace code rest k
  end.

(** The hooks [hs] as a phase that went past them all leaves them: each
    one carrying the event has as last run the reading of the clock taken
    when it became ready, the clock standing at [tick] before the first;
    the others are as they were. *)
Fixpoint stamped (code : Hook_Event) (tick : nat) (hs : list Hook)
  : list Hook :=
  match hs with
  | [] => []
  | h :: rest =>
      if decide (code ∈ hook_Events h)
      then set_hook_LastRun (Some (timeconv_Now lib tick)) h
             :: stamped code (S tick) rest
      else h :: stamped code tick rest
  end.

(** [r] with the status code [c], when its [Info] is there. *)
Definition coded (c : Status_Code) (r : Release) : option Release :=
  (λ info, set_release_Info
             (Some (set_info_Status (set_status_Code c (info_Status info)) info))
             r) <$> release_Info r.

(** The first deployment time of a release, when it is known. *)
Definition release_FirstDeployed (r : Release) : option Timestamp :=
  release_Info r ≫= info_FirstDeployed.

(** The apply steps of an upgrade, from the world [w] in which the
    current and the updated release were prepared, fail with [e] in the
    world [w']: in the pre-upgrade hook phase, in the update of the
    orchestrator, or in the post-upgrade hook phase. *)
Inductive UpgradeApplyFails (original updated : Release)
    (req : UpdateReleaseRequest) w : error → World St K → Prop :=
| pre_upgrade_fails r e w1 :
    hookPhase KubeClient lib (ureq_DisableHooks req) updated preUpgrade w
      = (Ok (r, Some e), w1) →
    UpgradeApplyFails original updated req w e w1
| kube_update_fails r w1 e w2 :
    hookPhase KubeClient lib (ureq_DisableHooks req) updated preUpgrade w
      = (Ok (r, None), w1) →
    performKubeUpdate KubeClient original r w1 = (Ok (Some e), w2) →
    UpgradeApplyFails original updated req w e w2
| post_upgrade_fails r w1 w2 r' e w3 :
    hookPhase KubeClient lib (ureq_DisableHooks req) updated preUpgrade w
      = (Ok (r, None), w1) →
    performKubeUpdate KubeClient original r w1 = (Ok None, w2) →
    hookPhase KubeClient lib (ureq_DisableHooks req) r postUpgrade w2
      = (Ok (r', Some e), w3) →
    UpgradeApplyFails original updated req w e w3.

(** The lookup [GetReleaseStatus] makes for a request: the call and what
    the store answers. *)
Definition statusLookup (req : GetReleaseStatusRequest) (st : St)
  : Call * (option Release * option error) :=
  if decide (sreq_Version req ≤ 0)%Z then
    (StoreDeployed (sreq_Name req),
     storage.Deployed Releases (sreq_Name req) st)
  else
    (StoreGet (sreq_Name req) (sreq_Version req),
     storage.Get Releases (sreq_Name req) (sreq_Version req) st).

(** The limit [ListReleases] cuts the page at. *)
Definition pageLimit (req : ListReleasesRequest) : Z :=
  if decide (lreq_Limit req = 0)%Z then ListDefaultLimit else lreq_Limit req.

End Notions.

(** * The in-memory release store

    The storage package (pkg/storage and its drivers) is not among the
    sources; this store follows the contract the spec gives for each
    operation.  The records are kept in the order of their creation. *)

Module memory.

(** Modelled from the spec: the storage package is not among the
    sources; releases are keyed by (name, version). *)
Definition holds (name : string) (version : Z) (r : Release) : bool :=
  bool_decide (release_Name r = name)
  && bool_decide (release_Version r = version).

(** Modelled from the spec: [Get] is NotFound if there is no exact
    match. *)
Definition Get (name : string) (version : Z) (rels : list Release)
  : option Release * option error :=
  match List.find (holds name version) rels with
  | Some r => (Some r, None)
  | None => (None, Some ErrReleaseNotFound)
  end.

(** Modelled from the spec: [Deployed] returns the DEPLOYED version of a
    name, NotFound if there is none. *)
Definition isDeployed (name : string) (r : Release) : bool :=
  bool_decide (release_Name r = name)
  && bool_decide (release_code r = Some Status_DEPLOYED).

Definition Deployed (name : string) (rels : list Release)
  : option Release * option error :=
  match List.find (isDeployed name) rels with
  | Some r => (Some r, None)
  | None => (None, Some ErrReleaseNotFound)
  end.

(** Modelled from the spec: [ListFilterAll] yields every release for
    which the predicate returns true. *)
Fixpoint filterAll (filter : Release → option bool) (rels : list Release)
  : option (list Release) :=
  match rels with
  | [] => Some []
  | r :: rest =>
      keep ← filter r;
      rest' ← filterAll filter rest;
      Some (if keep : bool then r :: rest' else rest')
  end.

Definition ListFilterAll (filter : Release → option bool)
    (rels : list Release) : option (list Release * option error) :=
  kept ← filterAll filter rels;
  Some (kept, None).

(** Modelled from the spec: [Create] fails with AlreadyExists if
    (name, version) is present. *)
Definition Create (r : Release) (rels : list Release)
  : list Release * option error :=
  match List.find (holds (release_Name r) (release_Version r)) rels with
  | Some _ => (rels, Some ErrReleaseExists)
  | None => (rels ++ [r], None)
  end.

(** Modelled from the spec: [Update] fails with NotFound if the release
    is absent and overwrites it in place otherwise. *)
Definition Update (r : Release) (rels : list Release)
  : list Release * option error :=
  match List.find (holds (release_Name r) (release_Version r)) rels with
  | Some _ =>
      ((λ x, if holds (release_Name r) (release_Version r) x then r else x)
         <$> rels, None)
  | None => (rels, Some ErrReleaseNotFound)
  end.

(** Modelled from the spec: the storage package is not among the
    sources.  The in-memory backend is taken to hand out the records it
    keeps, so a write through one of them shows in the store. *)
Definition Written (r : Release) (rels : list Release) : list Release :=
  (λ x, if holds (release_Name r) (release_Version r) x then r else x)
    <$> rels.

Definition store : storage.Storage (list Release) :=
  storage.mkStorage _ Get Deployed ListFilterAll Create Update Written.

End memory.

(** * A small environment to run the handlers in

    A store that cannot be reached, an orchestrator that counts the calls
    it receives and refuses the manifests named below, and plain stand-ins
    for the imported packages. *)

Module fixture.

(** A store backend whose every call fails with a transport error, as the
    orchestrator-backed store does when the cluster cannot be reached. *)
Definition unreachable : error := errors_New "connection refused".

Definition downStore : storage.Storage unit :=
  storage.mkStorage unit
    (λ _ _ _, (None, Some unreachable))
    (λ _ _, (None, Some unreachable))
    (λ _ _, Some ([], Some unreachable))
    (λ _ st, (st, Some unreachable))
    (λ _ st, (st, Some unreachable))
    (λ _ st, st).

Definition refused : error := errors_New "refused".
Definition notReady : error := errors_New "timed out waiting for the condition".

(** The orchestrator: its state is the number of calls received; it
    refuses to create, or to update to, a manifest that ends in "bad",
    never sees a manifest that ends in "unready" become ready, and cannot
    get one that ends in "gone". *)
Definition cluster : kube.Client nat :=
  kube.mkClient nat
    (λ _ manifest n,
       (S n, if strings_HasSuffix manifest "bad" then Some refused else None))
    (λ _ manifest n,
       (S n, if strings_HasSuffix manifest "unready" then Some notReady
             else None))
    (λ _ _ target n,
       (S n, if strings_HasSuffix target "bad" then Some refused else None))
    (λ _ manifest n,
       (S n, if strings_HasSuffix manifest "gone"
             then (EmptyString, Some refused)
             else ("1 pod running", None)))
    (λ n, (S n, None))
    (λ n, (S n, (Some ["v1"; "extensions/v1beta1"], None))).

(** The engine renders each template as it stands. *)
Definition render : Engine unit :=
  λ ch _, (list_to_map (chart_Templates ch), None).

(** The sorter takes a file under hooks/ for a hook on pre-install and
    pre-upgrade, and any other file for a manifest. *)
Definition sorter (files : gmap string string) (vs : versionSet)
    (order : SortOrder) : list Hook * list manifest * option error :=
  let fs := map_to_list files in
  let isHook (kv : string * string) := String.prefix "hooks/" kv.1 in
  ((λ kv, mkHook kv.1 "Job" kv.1 kv.2
            [Hook_PRE_INSTALL; Hook_PRE_UPGRADE] None)
     <$> List.filter isHook fs,
   (λ kv, mkManifest kv.1 kv.2)
     <$> List.filter (λ kv, negb (isHook kv)) fs,
   None).

Fixpoint insert_sorted (less : Release → Release → option bool) (r : Release)
    (sorted : list Release) : option (list Release) :=
  match sorted with
  | [] => Some [r]
  | x :: rest =>
      b ← less r x;
      if b : bool then Some (r :: x :: rest)
      else rest' ← insert_sorted less r rest; Some (x :: rest')
  end.

Fixpoint insertion_sort (less : Release → Release → option bool)
    (rels : list Release) : option (list Release) :=
  match rels with
  | [] => Some []
  | r :: rest => sorted ← insertion_sort less rest; insert_sorted less r sorted
  end.

Definition packages : Library unit :=
  mkLibrary unit
    (λ n, mkTimestamp (1000 + Z.of_nat n) 0)
    (λ n, "lucky-otter")
    (λ _ _ _, (tt, None))
    render
    (λ _, None)
    sorter
    (λ client server, String.eqb client server)
    "2.0.0"
    (λ filter, (Some (String.prefix filter), None))
    insertion_sort
    (λ _, None).

Definition client : ctx_Context :=
  Some {[ "x-helm-api-client" := ["2.0.0"] ]}.

Definition world {St} (st : St) : World St nat := mkWorld st 0 0 0 [].

(** A chart with one template, and one with a hook the orchestrator
    refuses. *)
Definition chart : Chart :=
  mkChart (Some (mkMetadata "foo" "0.1.0" EmptyString))
          [("foo/t.yaml", "kind: ConfigMap")].

Definition chartBadHook : Chart :=
  mkChart (Some (mkMetadata "foo" "0.1.0" EmptyString))
          [("foo/t.yaml", "kind: ConfigMap"); ("hooks/pre.yaml", "bad")].

Definition chartBadManifest : Chart :=
  mkChart (Some (mkMetadata "foo" "0.1.0" EmptyString)) [("foo/t.yaml", "bad")].

Definition stored (version : Z) (code : Status_Code) (manifest : string)
  : Release :=
  mkRelease "foo"
            (Some (mkInfo (mkStatus code EmptyString EmptyString)
                          (Some (mkTimestamp 10 0))
                          (Some (mkTimestamp (10 + version) 0)) None))
            (Some chart) None manifest [] version "default".

(** Stores: foo deployed at version 1; foo failed at version 1; foo
    superseded at version 1 and deployed at version 2; foo and bar both
    deployed at version 1. *)
Definition deployedStore : list Release :=
  [stored 1 Status_DEPLOYED "kind: ConfigMap"].

Definition failedStore : list Release :=
  [stored 1 Status_FAILED "kind: ConfigMap"].

Definition upgradedStore : list Release :=
  [stored 1 Status_SUPERSEDED "kind: ConfigMap";
   stored 2 Status_DEPLOYED "kind: Secret"].

Definition pairStore : list Release :=
  deployedStore ++
  [mkRelease "bar"
             (Some (mkInfo (mkStatus Status_DEPLOYED EmptyString EmptyString)
                           (Some (mkTimestamp 20 0))
                           (Some (mkTimestamp 20 0)) None))
             (Some chart) None "kind: Pod" [] 1 "default"].

Definition install (c : Chart) (dryRun : bool) : InstallReleaseRequest :=
  mkInstallReleaseRequest (Some c) None dryRun "foo" false "default" false.

Definition upgrade (c : Chart) : UpdateReleaseRequest :=
  mkUpdateReleaseRequest "foo" (Some c) None false false.

Definition rollback : RollbackReleaseRequest :=
  mkRollbackReleaseRequest "foo" false false 0.

Definition status : GetReleaseStatusRequest :=
  mkGetReleaseStatusRequest "foo" 1.

Definition listing (limit : Z) : ListReleasesRequest :=
  mkListReleasesRequest limit EmptyString ListSort_NAME EmptyString
                        ListSort_ASC [].

(** Three hooks: two for pre-install, of which the second never becomes
    ready, and between them one for post-install only. *)
Definition hooks : list Hook :=
  [ mkHook "first" "Job" "hooks/first.yaml" "first" [Hook_PRE_INSTALL] None;
    mkHook "later" "Job" "hooks/later.yaml" "later" [Hook_POST_INSTALL] None;
    mkHook "stuck" "Job" "hooks/stuck.yaml" "unready"
           [Hook_PRE_INSTALL; Hook_POST_INSTALL] None ].

End fixture.

(** * More of the server: GetReleaseContent, and notions for the
      properties of the handlers *)

Record GetReleaseContentRequest := mkGetReleaseContentRequest {
  creq_Name : string;
  creq_Version : Z }.

(** The release of the response is the pointer the store handed back,
    nil or not. *)
Record GetReleaseContentResponse := mkGetReleaseContentResponse {
  cres_Release : option Release }.

Section ReleaseContent.
Context {St K Values : Type}.
Variable Releases : storage.Storage St.
Variable KubeClient : kube.Client K.
Variable lib : Library Values.
Implicit Types w : World St K.

Definition GetReleaseContent (c : ctx_Context) (req : GetReleaseContentRequest)
  : M St K (option GetReleaseContentResponse * option error) :=
  ok ← checkClientVersion lib c;
  if negb ok then mret (None, Some errIncompatibleVersion) else
  if decide (creq_Name req = EmptyString) then mret (None, Some errMissingRelease)
  else if decide (creq_Version req ≤ 0)%Z then
    '(rel, err) ← Releases_Deployed Releases (creq_Name req);
    mret (Some (mkGetReleaseContentResponse rel), err)
  else
    '(rel, err) ← Releases_Get Releases (creq_Name req) (creq_Version req);
    mret (Some (mkGetReleaseContentResponse rel), err).

(** A call a query handler may make: a lookup, the orchestrator's [Get],
    or the sending of the response. *)
Definition query_call (c : Call) : bool :=
  lookup_call c ||
  match c with
  | KubeGet _ _ | StreamSend _ => true
  | _ => false
  end.

(** An action makes only calls that [P] accepts, whatever its outcome. *)
Definition OnlyCalls {A} (P : Call → bool) (m : M St K A) : Prop :=
  ∀ w, ∃ d, w_calls (m w).2 = w_calls w ++ d ∧ Forall (λ c, P c = true) d.

(** The apply steps of a rollback, from the world [w] in which the
    current and the target release were prepared, fail with [e] in the
    world [w']: in the pre-rollback hook phase, in the update of the
    orchestrator, or in the post-rollback hook phase. *)
Inductive RollbackApplyFails (current target : Release)
    (req : RollbackReleaseRequest) w : error → World St K → Prop :=
| pre_rollback_fails r e w1 :
    hookPhase KubeClient lib (rreq_DisableHooks req) target preRollback w
      = (Ok (r, Some e), w1) →
    RollbackApplyFails current target req w e w1
| kube_rollback_fails r w1 e w2 :
    hookPhase KubeClient lib (rreq_DisableHooks req) target preRollback w
      = (Ok (r, None), w1) →
    performKubeUpdate KubeClient current r w1 = (Ok (Some e), w2) →
    RollbackApplyFails current target req w e w2
| post_rollback_fails r w1 w2 r' e w3 :
    hookPhase KubeClient lib (rreq_DisableHooks req) target preRollback w
      = (Ok (r, None), w1) →
    performKubeUpdate KubeClient current r w1 = (Ok None, w2) →
    hookPhase KubeClient lib (rreq_DisableHooks req) r postRollback w2
      = (Ok (r', Some e), w3) →
    RollbackApplyFails current target req w e w3.

(** The files [renderResources] hands to the sorter: the rendered files
    less those whose path ends in NOTES.txt. *)
Definition sortedFiles (files : gmap string string) : gmap string string :=
  filter (λ kv, strings_HasSuffix kv.1 notesFileSuffix = false) files.

End ReleaseContent.

(** * Splitting a manifest document *)

(** [strings.Split(s, sep)] for a separator that is not empty: the pieces
    of [s] between the occurrences of [sep], each occurrence found from
    the left after the one before.  [skip] counts the characters of a
    found separator that are still to pass. *)
Fixpoint strings_Split_from (sep s : string) (skip : nat) : list string :=
  match s with
  | EmptyString => [EmptyString]
  | String c s' =>
      match skip with
      | S k => strings_Split_from sep s' k
      | 0 =>
          if String.prefix sep s
          then EmptyString :: strings_Split_from sep s' (String.length sep - 1)
          else match strings_Split_from sep s' 0 with
               | piece :: pieces => String c piece :: pieces
               | [] => [String c EmptyString]
               end
      end
  end.

Definition strings_Split (s sep : string) : list string :=
  strings_Split_from sep s 0.

(** [strings.Join]. *)
Fixpoint strings_Join (a : list string) (sep : string) : string :=
  match a with
  | [] => EmptyString
  | [x] => x
  | x :: rest => x +:+ sep +:+ strings_Join rest sep
  end.

Definition manifestSep : string := newline +:+ "---" +:+ newline.

(** [fmt.Sprintf("manifest-%d", i)]. *)
Definition manifestKey (i : nat) : string := "manifest-" +:+ pretty i.

(** The loop of [splitManifests] from index [i] on. *)
Fixpoint splitManifests_range (tmp : list string) (i : nat)
    (res : gmap string string) : gmap string string :=
  match tmp with
  | [] => res
  | d :: rest => splitManifests_range rest (S i) (<[manifestKey i := d]> res)
  end.

Definition splitManifests (bigfile : string) : gmap string string :=
  splitManifests_range (strings_Split bigfile manifestSep) 0 ∅.

(** * More requests to run the handlers on *)

Module cases.

(** A client of another version than the server's. *)
Definition outdated : ctx_Context :=
  Some {[ "x-helm-api-client" := ["1.0.0"] ]}.

(** A list request that starts at the release named foo. *)
Definition listingFrom : ListReleasesRequest :=
  mkListReleasesRequest 0 "foo" ListSort_NAME EmptyString ListSort_ASC [].

(** foo superseded at version 1 with a manifest the orchestrator refuses,
    and deployed at version 2. *)
Definition brokenStore : list Release :=
  [fixture.stored 1 Status_SUPERSEDED "bad";
   fixture.stored 2 Status_DEPLOYED "kind: Secret"].

Definition upgradeDryRun : UpdateReleaseRequest :=
  mkUpdateReleaseRequest "foo" (Some fixture.chart) None true false.

Definition rollbackDryRun : RollbackReleaseRequest :=
  mkRollbackReleaseRequest "foo" true false 0.

(** A release as the preparation of an install leaves it. *)
Definition prepared : Release :=
  fixture.stored 1 Status_UNKNOWN "kind: ConfigMap".

Definition installNoChart : InstallReleaseRequest :=
  mkInstallReleaseRequest None None false "foo" false "default" false.

Definition installNoHooks : InstallReleaseRequest :=
  mkInstallReleaseRequest (Some fixture.chart) None false "foo" true "default"
                          false.

Definition content : GetReleaseContentRequest :=
  mkGetReleaseContentRequest "foo" 1.


End cases.
(** * Facts about the monad *)

Section MonadFacts.
Context {St K : Type}.
Implicit Types w : World St K.

Lemma bind_run {A B} (m : M St K A) (f : A → M St K B) w :
  (m ≫= f) w =
  match m w with
  | (Ok a, w') => f a w'
  | (Panicked p, w') => (Panicked p, w')
  end.
Proof. reflexivity. Qed.

Lemma bind_Ok {A B} (m : M St K A) (f : A → M St K B) w a w1 :
  m w = (Ok a, w1) → (m ≫= f) w = f a w1.
Proof. intros H. rewrite bind_run, H. reflexivity. Qed.

Lemma bind_Ok_inv {A B} (m : M St K A) (f : A → M St K B) w b w' :
  (m ≫= f) w = (Ok b, w') →
  ∃ a w1, m w = (Ok a, w1) ∧ f a w1 = (Ok b, w').
Proof.
  rewrite bind_run. destruct (m w) as [[a|p] w1]; [eauto | discriminate].
Qed.

Lemma ret_run {A} (a : A) w : (mret a : M St K A) w = (Ok a, w).
Proof. reflexivity. Qed.

Lemma within_ret {A} P (a : A) : Within P (mret a : M St K A).
Proof. intros w. split; [done|]. exists []. by rewrite app_nil_r. Qed.

Lemma within_panic {A} P p : Within P (panic p : M St K A).
Proof. intros w. split; [done|]. exists []. by rewrite app_nil_r. Qed.

Lemma within_deref {A} P (ptr : option A) : Within P (deref ptr : M St K A).
Proof. destruct ptr; [apply within_ret | apply within_panic]. Qed.

Lemma within_bind {A B} P (m : M St K A) (f : A → M St K B) :
  Within P m → (∀ a, Within P (f a)) → Within P (m ≫= f).
Proof.
  intros Hm Hf w. rewrite bind_run.
  destruct (Hm w) as [Hs [d [Hc Hd]]].
  destruct (m w) as [[a|p] w1]; simpl in *.
  - destruct (Hf a w1) as [Hs' [d' [Hc' Hd']]].
    split; [congruence|]. exists (d ++ d').
    rewrite Hc', Hc, assoc_L by apply _. split; [done|]. by apply Forall_app.
  - split; [done|]. by exists d.
Qed.

Lemma within_call P c : P c = true → Within P (call c : M St K unit).
Proof.
  intros Hc w. split; [done|]. exists [c]. split; [done|]. by constructor.
Qed.

Lemma within_store_read {A} P (f : St → A) : Within P (store_read f : M St K A).
Proof. intros w. split; [done|]. exists []. by rewrite app_nil_r. Qed.

Lemma within_kube_call {A} P (f : K → K * A) : Within P (kube_call f : M St K A).
Proof.
  intros w. unfold kube_call. destruct (f (w_kube w)) as [k a]. simpl.
  split; [done|]. exists []. by rewrite app_nil_r.
Qed.

Lemma within_tick P : Within P (tick : M St K nat).
Proof. intros w. split; [done|]. exists []. by rewrite app_nil_r. Qed.

Lemma within_fresh P : Within P (fresh : M St K nat).
Proof. intros w. split; [done|]. exists []. by rewrite app_nil_r. Qed.

Lemma within_mono {A} (P Q : Call → bool) (m : M St K A) :
  (∀ c, P c = true → Q c = true) → Within P m → Within Q m.
Proof.
  intros HPQ Hm w. destruct (Hm w) as [Hs [d [Hc Hd]]].
  split; [done|]. exists d. split; [done|].
  eapply Forall_impl; [exact Hd|]. auto.
Qed.

Lemma within_run {A} P (m : M St K A) w o w' :
  Within P m → m w = (o, w') →
  w_releases w' = w_releases w ∧
  ∃ d, w_calls w' = w_calls w ++ d ∧ Forall (λ c, P c = true) d.
Proof. intros Hm Hr. specialize (Hm w). by rewrite Hr in Hm. Qed.

End MonadFacts.

Create HintDb within.

#[global] Hint Resolve within_ret within_panic within_deref within_store_read
  within_kube_call within_tick within_fresh : within.

(** One step of a proof that an action stays within a class of calls:
    through a bind, into the branches of a test, or by a known fact. *)
Ltac within_step :=
  match goal with
  | |- Within _ (mbind _ _) => apply within_bind; [|intros]
  | |- Within _ (_ ≫= _) => apply within_bind; [|intros]
  | |- Within _ (call _) => apply within_call; first [reflexivity | assumption]
  | |- Within _ (match ?x with _ => _ end) => destruct x
  | |- Within _ (if ?x then _ else _) => destruct x
  | |- Within _ (let '(_, _) := ?x in _) => destruct x
  | H : context [Within _ _] |- Within _ _ => solve [apply H; reflexivity]
  | |- Within _ _ => solve [eauto with within]
  end.

Ltac within_auto := repeat within_step.

(** * Facts about the release server *)

(** ** Names *)

Section NameFacts.
Context {St K Values : Type}.
Variable Releases : storage.Storage St.
Variable KubeClient : kube.Client K.
Variable lib : Library Values.
Implicit Types w : World St K.


Lemma Releases_Get_run name version w :
  Releases_Get Releases name version w =
  (Ok (storage.Get Releases name version (w_releases w)),
   called (StoreGet name version) w).
Proof. reflexivity. Qed.

Lemma uniqName_too_long start reuse w :
  start ≠ EmptyString → releaseNameMaxLen < String.length start →
  uniqName Releases lib start reuse w = (Ok (EmptyString, Some (errNameTooLong start)), w).
Proof.
  intros Hne Hlen. unfold uniqName.
  destruct (decide (start ≠ EmptyString)); [|done].
  destruct (decide (releaseNameMaxLen < String.length start)); [done|lia].
Qed.

Lemma uniqName_lookup start reuse w :
  start ≠ EmptyString → String.length start ≤ releaseNameMaxLen →
  uniqName Releases lib start reuse w =
  let '(rel, err) := storage.Get Releases start 1 (w_releases w) in
  let w1 := called (StoreGet start 1) w in
  match err with
  | Some ErrReleaseNotFound => (Ok (start, None), w1)
  | _ =>
      match rel ≫= release_Info with
      | None => (Panicked NilDereference, w1)
      | Some info =>
          let st := status_Code (info_Status info) in
          if reuse && (bool_decide (st = Status_DELETED)
                       || bool_decide (st = Status_FAILED))
          then (Ok (start, None), w1)
          else if reuse then (Ok (EmptyString, Some errNameInUse), w1)
          else (Ok (EmptyString, Some (errNameExists start)), w1)
      end
  end.
Proof.
  intros Hne Hlen. unfold uniqName.
  destruct (decide (start ≠ EmptyString)); [|done].
  destruct (decide (releaseNameMaxLen < String.length start)); [lia|].
  rewrite bind_run, Releases_Get_run.
  destruct (storage.Get Releases start 1 (w_releases w)) as [rel err].
  assert (Hderef :
    (rel ← deref rel; info ← deref (release_Info rel);
     let st := status_Code (info_Status info) in
     if reuse && (bool_decide (st = Status_DELETED)
                  || bool_decide (st = Status_FAILED))
     then mret (start, None)
     else if reuse then mret (EmptyString, Some errNameInUse)
     else mret (EmptyString, Some (errNameExists start)) : M St K _)
      (called (StoreGet start 1) w) =
    match rel ≫= release_Info with
    | None => (Panicked NilDereference, called (StoreGet start 1) w)
    | Some info =>
        let st := status_Code (info_Status info) in
        if reuse && (bool_decide (st = Status_DELETED)
                     || bool_decide (st = Status_FAILED))
        then (Ok (start, None), called (StoreGet start 1) w)
        else if reuse
             then (Ok (EmptyString, Some errNameInUse), called (StoreGet start 1) w)
             else (Ok (EmptyString, Some (errNameExists start)),
                   called (StoreGet start 1) w)
    end).
  { destruct rel as [rel|]; [|reflexivity]. simpl.
    destruct (release_Info rel) as [info|] eqn:Hinfo.
    2:{ rewrite bind_run. simpl. rewrite bind_run, Hinfo. reflexivity. }
    rewrite bind_run. simpl. rewrite bind_run, Hinfo. simpl.
    destruct (reuse && _); [reflexivity|]. by destruct reuse. }
  destruct err as [[]|]; try exact Hderef. reflexivity.
Qed.

(** C4. For a non-empty requested name: a name longer than 14 fails with
    the too-long error while a name of length 14 goes on to the lookup;
    when the store reports (name, 1) as not found the name is granted;
    when the store holds it, the name is granted if reuse is set and the
    held release is DELETED or FAILED, fails with the in-use error if
    reuse is set otherwise, and fails with the already-exists error if
    reuse is not set. *)
Theorem uniqName_requested start reuse w :
  start ≠ EmptyString →
  let found := storage.Get Releases start 1 (w_releases w) in
  let w1 := called (StoreGet start 1) w in
  (14 < String.length start →
   uniqName Releases lib start reuse w = (Ok (EmptyString, Some (errNameTooLong start)), w)) ∧
  (String.length start ≤ 14 →
   (found.2 = Some ErrReleaseNotFound →
    uniqName Releases lib start reuse w = (Ok (start, None), w1)) ∧
   (∀ rel st,
      found = (Some rel, None) → release_code rel = Some st →
      (reuse = true → st = Status_DELETED ∨ st = Status_FAILED →
       uniqName Releases lib start reuse w = (Ok (start, None), w1)) ∧
      (reuse = true → st ≠ Status_DELETED → st ≠ Status_FAILED →
       uniqName Releases lib start reuse w = (Ok (EmptyString, Some errNameInUse), w1)) ∧
      (reuse = false →
       uniqName Releases lib start reuse w =
       (Ok (EmptyString, Some (errNameExists start)), w1)))).
Proof.
  intros Hne found w1. split.
  { intros Hlen. by apply uniqName_too_long. }
  intros Hlen. pose proof (uniqName_lookup start reuse w Hne Hlen) as Hrun.
  fold found in Hrun. split.
  - intros Herr. destruct found as [rel err]. simpl in Herr. by subst err.
  - intros rel st Hfound Hcode. rewrite Hfound in Hrun. simpl in Hrun.
    unfold release_code in Hcode.
    destruct (release_Info rel) as [info|]; [|done].
    simpl in Hcode, Hrun. injection Hcode as Hst. rewrite Hst in Hrun.
    repeat split.
    + intros -> [->| ->]; exact Hrun.
    + intros -> H1 H2. rewrite Hrun.
      rewrite !bool_decide_eq_false_2 by done. done.
    + intros ->. exact Hrun.
Qed.

(** C9 (how the code behaves). When the lookup of a requested name comes
    back with an error that is not the not-found error and with no
    release, [uniqName] reads the status through the nil release and the
    handler panics. *)
Theorem uniqName_nil_dereference start reuse w e :
  start ≠ EmptyString → String.length start ≤ 14 →
  storage.Get Releases start 1 (w_releases w) = (None, Some e) →
  e ≠ ErrReleaseNotFound →
  uniqName Releases lib start reuse w = (Panicked NilDereference, called (StoreGet start 1) w).
Proof.
  intros Hne Hlen Hget He.
  rewrite (uniqName_lookup start reuse w Hne Hlen), Hget. simpl.
  by destruct e.
Qed.

End NameFacts.

(** ** Hook phases *)

Section HookFacts.
Context {St K Values : Type}.
Variable KubeClient : kube.Client K.
Variable lib : Library Values.
Implicit Types w : World St K.


Lemma hookFound_elem code h :
  hookFound code h = bool_decide (code ∈ hook_Events h).
Proof.
  unfold hookFound.
  assert (H : ∀ es b, fold_left (λ found e, if decide (e = code) then true else found) es b
                    = b || bool_decide (code ∈ es)).
  { induction es as [|e es IH]; intros b; cbn [fold_left].
    - rewrite bool_decide_eq_false_2 by apply not_elem_of_nil.
      by rewrite orb_false_r.
    - rewrite IH.
      rewrite (bool_decide_ext (code ∈ e :: es) (code = e ∨ code ∈ es))
        by apply elem_of_cons.
      destruct (decide (e = code)) as [->|Hne].
      + rewrite (bool_decide_eq_true_2 (code = code ∨ _)) by (by left).
        by rewrite orb_true_r.
      + f_equal. apply bool_decide_ext.
        split; [by right | intros [?|?]; [congruence | done]]. }
  apply H.
Qed.

Lemma kubeCli_Create_run ns m w :
  kubeCli_Create KubeClient ns m w =
  (Ok (kube.Create KubeClient ns m (w_kube w)).2,
   with_kube (kube.Create KubeClient ns m (w_kube w)).1 (called (KubeCreate ns m) w)).
Proof.
  unfold kubeCli_Create. rewrite bind_run. simpl. unfold kube_call. simpl.
  by destruct (kube.Create KubeClient ns m (w_kube w)).
Qed.

Lemma kubeCli_WatchUntilReady_run ns m w :
  kubeCli_WatchUntilReady KubeClient ns m w =
  (Ok (kube.WatchUntilReady KubeClient ns m (w_kube w)).2,
   with_kube (kube.WatchUntilReady KubeClient ns m (w_kube w)).1
             (called (KubeWatchUntilReady ns m) w)).
Proof.
  unfold kubeCli_WatchUntilReady. rewrite bind_run. simpl. unfold kube_call. simpl.
  by destruct (kube.WatchUntilReady KubeClient ns m (w_kube w)).
Qed.

Lemma ranAs_mono code w0 w w' w1 h h' :
  w_ticks w0 ≤ w_ticks w → w_ticks w' ≤ w_ticks w1 →
  ranAs lib code w w' h h' → ranAs lib code w0 w1 h h'.
Proof.
  unfold ranAs. intros H0 H1. destruct (decide _); [|done].
  intros (n & Hn & ->). exists n. split; [lia|done].
Qed.

Lemma kubeAfter_cons ns code h hs k :
  kubeAfter KubeClient ns code (h :: hs) k =
  kubeAfter KubeClient ns code hs
            (if decide (code ∈ hook_Events h)
             then hookReady KubeClient ns h k else k).
Proof. reflexivity. Qed.

Lemma execHook_range_spec hs ns code w :
  ∃ ran rest err w' failed,
    execHook_range KubeClient lib hs ns code w
      = (Ok (stamped lib code (w_ticks w) ran ++ rest, err), w') ∧
    hs = ran ++ rest ∧
    Forall2 (ranAs lib code w w') ran (stamped lib code (w_ticks w) ran) ∧
    becameReady KubeClient ns code ran (w_kube w) = true ∧
    w_releases w' = w_releases w ∧
    w_ticks w' =
      w_ticks w + length (filter (λ h, code ∈ hook_Events h) ran) ∧
    w_calls w' = w_calls w ++ completedCalls ns code ran ++ failed ∧
    match err with
    | None =>
        rest = [] ∧ failed = [] ∧
        w_kube w' = kubeAfter KubeClient ns code ran (w_kube w)
    | Some e =>
        ∃ h rest', rest = h :: rest' ∧ code ∈ hook_Events h ∧
          let k := kubeAfter KubeClient ns code ran (w_kube w) in
          let created := kube.Create KubeClient ns (hook_Manifest h) k in
          let waited :=
            kube.WatchUntilReady KubeClient ns (hook_Manifest h) created.1 in
          (failed = [KubeCreate ns (hook_Manifest h)] ∧
           created.2 = Some e ∧ w_kube w' = created.1) ∨
          (failed = [KubeCreate ns (hook_Manifest h);
                     KubeWatchUntilReady ns (hook_Manifest h)] ∧
           created.2 = None ∧ waited.2 = Some e ∧ w_kube w' = waited.1)
    end.
Proof.
  revert w. induction hs as [|h hs IH]; intros w.
  { exists [], [], None, w, []. simpl.
    repeat split; try done; try lia. by rewrite app_nil_r. }
  simpl. rewrite hookFound_elem.
  destruct (decide (code ∈ hook_Events h)) as [Hin|Hnin].
  2:{ rewrite bool_decide_eq_false_2 by done. simpl. rewrite bind_run.
      destruct (IH w) as (ran & rest & err & w' & failed
                          & Hrun & Hhs & Hran & Hready & Hst & Htk & Hcalls
                          & Herr).
      rewrite Hrun. simpl.
      exists (h :: ran), rest, err, w', failed.
      cbn [stamped becameReady]. rewrite kubeAfter_cons, filter_cons.
      rewrite !decide_False by done.
      repeat split; try done.
      - by rewrite Hhs.
      - constructor; [|done]. unfold ranAs. by rewrite decide_False.
      - rewrite Hcalls. f_equal. simpl. unfold completedCalls. simpl.
        by rewrite decide_False. }
  rewrite bool_decide_eq_true_2 by done. simpl.
  rewrite bind_run, kubeCli_Create_run.
  destruct (kube.Create KubeClient ns (hook_Manifest h) (w_kube w)) as [k1 err1] eqn:Hc.
  simpl. destruct err1 as [e|].
  { eexists [], (h :: hs), (Some e), _, [KubeCreate ns (hook_Manifest h)].
    simpl. repeat split; try done; try lia.
    exists h, hs. repeat split; try done. left. by rewrite Hc. }
  rewrite bind_run, kubeCli_WatchUntilReady_run. simpl.
  destruct (kube.WatchUntilReady KubeClient ns (hook_Manifest h) k1) as [k2 err2] eqn:Hw.
  simpl. destruct err2 as [e|].
  { eexists [], (h :: hs), (Some e), _,
      [KubeCreate ns (hook_Manifest h); KubeWatchUntilReady ns (hook_Manifest h)].
    simpl. repeat split; try done; try lia.
    - unfold with_kube, called. simpl. by rewrite <- app_assoc.
    - exists h, hs. repeat split; try done. right. rewrite Hc. simpl.
      by rewrite Hw. }
  rewrite bind_run. unfold Now at 1. rewrite bind_run. simpl.
  rewrite bind_run.
  match goal with |- context [execHook_range KubeClient lib hs ns code ?w1] =>
    destruct (IH w1) as (ran & rest & err & w' & failed
                         & Hrun & Hhs & Hran & Hready & Hst & Htk & Hcalls
                         & Herr)
  end.
  rewrite Hrun. unfold with_kube, called in *. simpl in *.
  exists (h :: ran), rest, err, w', failed.
  cbn [stamped becameReady]. rewrite kubeAfter_cons, filter_cons.
  rewrite !decide_True by done. unfold hookReady. rewrite Hc. simpl.
  rewrite Hw. simpl.
  repeat split; try done.
  - by rewrite Hhs.
  - constructor.
    + unfold ranAs. rewrite decide_True by done. exists (w_ticks w). split; [lia|done].
    + eapply Forall2_impl; [exact Hran|]. intros x y.
      apply ranAs_mono; simpl; lia.
  - lia.
  - rewrite Hcalls. unfold completedCalls. simpl. rewrite decide_True by done.
    simpl. by rewrite <- !app_assoc.
Qed.

Lemma submitted_app d1 d2 : submitted (d1 ++ d2) = submitted d1 ++ submitted d2.
Proof. apply omap_app. Qed.

Lemma submitted_completedCalls ns code hs :
  submitted (completedCalls ns code hs) =
  hook_Manifest <$> filter (λ h, code ∈ hook_Events h) hs.
Proof.
  induction hs as [|h hs IH]; [done|].
  change (completedCalls ns code (h :: hs))
    with ((if decide (code ∈ hook_Events h)
           then [KubeCreate ns (hook_Manifest h);
                 KubeWatchUntilReady ns (hook_Manifest h)]
           else []) ++ completedCalls ns code hs).
  rewrite submitted_app, IH, filter_cons.
  by destruct (decide (code ∈ hook_Events h)).
Qed.

(** C8. A hook phase goes through the hooks in list order, one after
    the other.  The hooks it went past, [ran], are those before the first
    failure: for each of them that carries the event of the phase, the
    orchestrator answered the creation and then the wait without an
    error, each call in the state the calls before it had left, and the
    hook has as last run the reading of the clock taken when it became
    ready; the others are untouched.  Without an error the phase went
    past every hook.  With an error, the phase stopped at a hook carrying
    the event; the error is the one the orchestrator answered, in the
    state the hooks before had left it in, to the creation of that hook
    or, the creation having succeeded, to the wait for it; that hook and
    all hooks after it are handed back as they were, their last run not
    set.  The calls made are, in order, the creation of and then the wait
    for each hook that became ready, followed by the calls for the
    failing hook; the manifests submitted are exactly those of the hooks
    carrying the event, in list order, up to and with the failing one.
    The store is not touched. *)
Theorem execHook_phase hs name ns hook code w :
  events hook = Some code →
  ∃ ran ran' rest err w' failed,
    execHook KubeClient lib hs name ns hook w = (Ok (ran' ++ rest, err), w') ∧
    hs = ran ++ rest ∧
    Forall2 (ranAs lib code w w') ran ran' ∧
    ran' = stamped lib code (w_ticks w) ran ∧
    becameReady KubeClient ns code ran (w_kube w) = true ∧
    w_ticks w' =
      w_ticks w + length (filter (λ h, code ∈ hook_Events h) ran) ∧
    w_releases w' = w_releases w ∧
    w_calls w' = w_calls w ++ completedCalls ns code ran ++ failed ∧
    submitted (completedCalls ns code ran ++ failed) =
      hook_Manifest <$> filter (λ h, code ∈ hook_Events h) (ran ++ take 1 rest) ∧
    match err with
    | None =>
        rest = [] ∧ failed = [] ∧
        w_kube w' = kubeAfter KubeClient ns code ran (w_kube w)
    | Some e =>
        ∃ h rest', rest = h :: rest' ∧ code ∈ hook_Events h ∧
          let k := kubeAfter KubeClient ns code ran (w_kube w) in
          let created := kube.Create KubeClient ns (hook_Manifest h) k in
          let waited :=
            kube.WatchUntilReady KubeClient ns (hook_Manifest h) created.1 in
          (failed = [KubeCreate ns (hook_Manifest h)] ∧
           created.2 = Some e ∧ w_kube w' = created.1) ∨
          (failed = [KubeCreate ns (hook_Manifest h);
                     KubeWatchUntilReady ns (hook_Manifest h)] ∧
           created.2 = None ∧ waited.2 = Some e ∧ w_kube w' = waited.1)
    end.
Proof.
  intros Hev. unfold execHook. rewrite Hev.
  destruct (execHook_range_spec hs ns code w)
    as (ran & rest & err & w' & failed
        & Hrun & Hhs & Hran & Hready & Hst & Htk & Hcalls & Herr).
  exists ran, (stamped lib code (w_ticks w) ran), rest, err, w', failed.
  repeat split; try done.
  rewrite submitted_app, filter_app, fmap_app, submitted_completedCalls.
  f_equal. destruct err as [e|].
  - destruct Herr as (h & rest' & -> & Hin & [(-> & _)|(-> & _)]);
      simpl; rewrite filter_cons, decide_True by done; done.
  - by destruct Herr as (-> & -> & _).
Qed.

End HookFacts.

(** ** The calls each step can make *)

Section FrameFacts.
Context {St K Values : Type}.
Variable Releases : storage.Storage St.
Variable KubeClient : kube.Client K.
Variable lib : Library Values.
Implicit Types w : World St K.

Lemma within_Releases_Get P name version :
  P (StoreGet name version) = true →
  Within P (Releases_Get Releases name version : M St K _).
Proof. intros. unfold Releases_Get. within_auto. Qed.

Lemma within_Releases_Deployed P name :
  P (StoreDeployed name) = true →
  Within P (Releases_Deployed Releases name : M St K _).
Proof. intros. unfold Releases_Deployed. within_auto. Qed.

Lemma within_kubeCli_Create P ns m :
  P (KubeCreate ns m) = true →
  Within P (kubeCli_Create KubeClient ns m : M St K _).
Proof. intros. unfold kubeCli_Create. within_auto. Qed.

Lemma within_kubeCli_WatchUntilReady P ns m :
  P (KubeWatchUntilReady ns m) = true →
  Within P (kubeCli_WatchUntilReady KubeClient ns m : M St K _).
Proof. intros. unfold kubeCli_WatchUntilReady. within_auto. Qed.

Lemma within_kubeCli_Update P ns cur tgt :
  P (KubeUpdate ns cur tgt) = true →
  Within P (kubeCli_Update KubeClient ns cur tgt : M St K _).
Proof. intros. unfold kubeCli_Update. within_auto. Qed.

Lemma within_Now P : Within P (Now lib : M St K _).
Proof. unfold Now. within_auto. Qed.

Lemma within_getVersionSet :
  Within lookup_call (getVersionSet KubeClient : M St K _).
Proof.
  unfold getVersionSet, kubeCli_APIClient, kubeCli_ServerGroups. within_auto.
Qed.

Lemma within_engine P ch : Within P (engine lib ch : M St K _).
Proof. unfold engine. within_auto. Qed.

Lemma within_renderResources ch values :
  Within lookup_call (renderResources KubeClient lib ch values : M St K _).
Proof.
  pose proof within_getVersionSet. pose proof (within_engine lookup_call).
  unfold renderResources. within_auto.
Qed.

Lemma within_uniqName_generate tries :
  Within lookup_call (uniqName_generate Releases lib tries : M St K _).
Proof.
  induction tries as [|tries IH]; simpl; [apply within_ret|].
  pose proof within_Releases_Get. within_auto.
Qed.

Lemma within_uniqName start reuse :
  Within lookup_call (uniqName Releases lib start reuse : M St K _).
Proof.
  pose proof within_uniqName_generate. pose proof within_Releases_Get.
  unfold uniqName. within_auto.
Qed.

Lemma within_prepareRelease req :
  Within lookup_call (prepareRelease Releases KubeClient lib req : M St K _).
Proof.
  pose proof within_uniqName. pose proof within_renderResources.
  pose proof within_Now.
  unfold prepareRelease. within_auto.
Qed.

Lemma within_prepareUpdate req :
  Within lookup_call (prepareUpdate Releases KubeClient lib req : M St K _).
Proof.
  pose proof within_Releases_Deployed. pose proof within_renderResources.
  pose proof within_Now.
  unfold prepareUpdate. within_auto.
Qed.

Lemma within_execHook_range hs ns code :
  Within apply_call (execHook_range KubeClient lib hs ns code : M St K _).
Proof.
  pose proof within_kubeCli_Create. pose proof within_kubeCli_WatchUntilReady.
  pose proof within_Now.
  induction hs as [|h hs IH]; simpl; within_auto.
Qed.

Lemma within_hookPhase disable r hook :
  Within apply_call (hookPhase KubeClient lib disable r hook : M St K _).
Proof.
  pose proof within_execHook_range.
  unfold hookPhase, execHook. within_auto.
Qed.

Lemma within_performKubeUpdate cur tgt :
  Within apply_call (performKubeUpdate KubeClient cur tgt : M St K _).
Proof. unfold performKubeUpdate. by apply within_kubeCli_Update. Qed.

Lemma getVersion_world c w : (getVersion c w).2 = w.
Proof.
  destruct c as [md|]; simpl; [|done].
  by destruct (md !! _) as [[|v0 v]|].
Qed.

Lemma checkClientVersion_world c w o w' :
  checkClientVersion lib c w = (o, w') → w' = w.
Proof.
  unfold checkClientVersion. rewrite bind_run.
  pose proof (getVersion_world c w) as Hw.
  destruct (getVersion c w) as [[v|p] w1]; simpl in Hw; subst w1;
    by intros [= _ <-].
Qed.

End FrameFacts.

(** ** Upgrade: a failure of the apply steps *)

Section UpgradeFacts.
Context {St K Values : Type}.
Variable Releases : storage.Storage St.
Variable KubeClient : kube.Client K.
Variable lib : Library Values.
Implicit Types w : World St K.


(** C10. When the apply steps of a live upgrade fail, in the pre-upgrade
    hook phase, in the update of the orchestrator or in the post-upgrade
    hook phase, the handler returns that error, the store is exactly as
    it was before the request, and no call that writes to the store (no
    Create, no Update) was made: no new release is recorded and the
    deployed release keeps its record, neither SUPERSEDED nor FAILED. *)
Theorem UpdateRelease_apply_failure c req w w1 current updated e w' :
  ureq_DryRun req = false →
  checkClientVersion lib c w = (Ok true, w) →
  prepareUpdate Releases KubeClient lib req w = (Ok (Some (current, updated), None), w1) →
  UpgradeApplyFails KubeClient lib current updated req w1 e w' →
  UpdateRelease Releases KubeClient lib c req w = (Ok (None, Some e), w') ∧
  w_releases w' = w_releases w ∧
  ∃ d, w_calls w' = w_calls w ++ d ∧
       Forall (λ c, store_write_call c = false) d.
Proof.
  intros Hdry Hcheck Hprep Hfail. split.
  - unfold UpdateRelease.
    rewrite (bind_Ok _ _ _ _ _ Hcheck). simpl.
    rewrite (bind_Ok _ _ _ _ _ Hprep). simpl.
    rewrite bind_run. simpl. rewrite bind_run.
    unfold performUpdate. rewrite Hdry.
    destruct Hfail as [r e w2 Hpre | r w2 e w3 Hpre Hupd
                       | r w2 w3 r' e w4 Hpre Hupd Hpost].
    + rewrite (bind_Ok _ _ _ _ _ Hpre). reflexivity.
    + rewrite (bind_Ok _ _ _ _ _ Hpre). simpl.
      rewrite (bind_Ok _ _ _ _ _ Hupd). reflexivity.
    + rewrite (bind_Ok _ _ _ _ _ Hpre). simpl.
      rewrite (bind_Ok _ _ _ _ _ Hupd). simpl.
      rewrite (bind_Ok _ _ _ _ _ Hpost). reflexivity.
  - assert (Hquiet : ∀ c, lookup_call c = true ∨ apply_call c = true →
                          store_write_call c = false).
    { intros [] [?|?]; done. }
    destruct (within_run _ _ _ _ _ (within_prepareUpdate Releases KubeClient lib req) Hprep)
      as (Hst1 & d1 & Hc1 & Hd1).
    assert (Hd1' : Forall (λ c, store_write_call c = false) d1).
    { eapply Forall_impl; [exact Hd1|]. intros; apply Hquiet; by left. }
    assert (Happly : ∀ d, Forall (λ c, apply_call c = true) d →
                          Forall (λ c, store_write_call c = false) d).
    { intros d Hd. eapply Forall_impl; [exact Hd|]. intros; apply Hquiet; by right. }
    destruct Hfail as [r e w2 Hpre | r w2 e w3 Hpre Hupd
                       | r w2 w3 r' e w4 Hpre Hupd Hpost].
    + destruct (within_run _ _ _ _ _ (within_hookPhase KubeClient lib _ _ _) Hpre) as (Hs2 & d2 & Hc2 & Hd2).
      split; [congruence|]. exists (d1 ++ d2).
      rewrite Hc2, Hc1, app_assoc. split; [done|].
      apply Forall_app; auto.
    + destruct (within_run _ _ _ _ _ (within_hookPhase KubeClient lib _ _ _) Hpre) as (Hs2 & d2 & Hc2 & Hd2).
      destruct (within_run _ _ _ _ _ (within_performKubeUpdate KubeClient _ _) Hupd) as (Hs3 & d3 & Hc3 & Hd3).
      split; [congruence|]. exists (d1 ++ d2 ++ d3).
      rewrite Hc3, Hc2, Hc1, !app_assoc. split; [done|].
      rewrite <- app_assoc. repeat (apply Forall_app; split); auto.
    + destruct (within_run _ _ _ _ _ (within_hookPhase KubeClient lib _ _ _) Hpre) as (Hs2 & d2 & Hc2 & Hd2).
      destruct (within_run _ _ _ _ _ (within_performKubeUpdate KubeClient _ _) Hupd) as (Hs3 & d3 & Hc3 & Hd3).
      destruct (within_run _ _ _ _ _ (within_hookPhase KubeClient lib _ _ _) Hpost) as (Hs4 & d4 & Hc4 & Hd4).
      split; [congruence|]. exists (d1 ++ d2 ++ d3 ++ d4).
      rewrite Hc4, Hc3, Hc2, Hc1, !app_assoc. split; [done|].
      rewrite <- !app_assoc. repeat (apply Forall_app; split); auto.
Qed.

End UpgradeFacts.

(** Case analysis on the run of an action recorded in [H], step by
    step: through the binds and into the branches it can have taken. *)
Ltac crunch H :=
  repeat first
    [ discriminate H
    | progress (rewrite ?bind_run, ?ret_run in H; cbn beta iota zeta in H)
    | match type of H with
      | context [match ?x with _ => _ end] =>
          lazymatch x with
          | context [match _ with _ => _ end] => fail
          | _ => first [ is_var x; destruct x
                       | let E := fresh "E" in destruct x eqn:E ]
          end
      end ].

(** ** Upgrade: success *)

Section RunFacts.
Context {St K Values : Type}.
Variable Releases : storage.Storage St.
Variable KubeClient : kube.Client K.
Variable lib : Library Values.
Implicit Types w : World St K.

Lemma deref_Ok {A} (ptr : option A) w a w' :
  (deref ptr : M St K A) w = (Ok a, w') → ptr = Some a ∧ w' = w.
Proof. destruct ptr; [by intros [= -> ->] | discriminate]. Qed.

Lemma Releases_Deployed_run name w :
  Releases_Deployed Releases name w =
  (Ok (storage.Deployed Releases name (w_releases w)),
   called (StoreDeployed name) w).
Proof. reflexivity. Qed.

Lemma Releases_Update_run r w :
  Releases_Update Releases r w =
  (Ok (storage.Update Releases r (w_releases w)).2,
   with_releases (storage.Update Releases r (w_releases w)).1
                 (called (StoreUpdate r) w)).
Proof.
  unfold Releases_Update. rewrite bind_run. simpl. unfold store_write. simpl.
  by destruct (storage.Update Releases r (w_releases w)).
Qed.

Lemma Releases_Create_run r w :
  Releases_Create Releases r w =
  (Ok (storage.Create Releases r (w_releases w)).2,
   with_releases (storage.Create Releases r (w_releases w)).1
                 (called (StoreCreate r) w)).
Proof.
  unfold Releases_Create. rewrite bind_run. simpl. unfold store_write. simpl.
  by destruct (storage.Create Releases r (w_releases w)).
Qed.

Lemma setCode_run c r w :
  (setCode c r : M St K _) w =
  match coded c r with
  | Some r' => (Ok r', w)
  | None => (Panicked NilDereference, w)
  end.
Proof.
  unfold setCode, coded. rewrite bind_run.
  by destruct (release_Info r).
Qed.

Lemma withNotes_code notes i :
  status_Code (info_Status (withNotes notes i)) = status_Code (info_Status i).
Proof. unfold withNotes. by destruct (decide _). Qed.

Lemma withNotes_FirstDeployed notes i :
  info_FirstDeployed (withNotes notes i) = info_FirstDeployed i.
Proof. unfold withNotes. by destruct (decide _). Qed.

Lemma hookPhase_Ok disable r hook w r' err w' :
  hookPhase KubeClient lib disable r hook w = (Ok (r', err), w') →
  r' = set_release_Hooks (release_Hooks r') r ∧ w_releases w' = w_releases w.
Proof.
  intros H. split.
  - unfold hookPhase in H. crunch H.
    + by injection H as <- _ _.
    + injection H as <- _ _. by destruct r.
  - by destruct (within_run _ _ _ _ _ (within_hookPhase KubeClient lib _ _ _) H).
Qed.

Lemma prepareUpdate_Ok req w current updated w1 :
  prepareUpdate Releases KubeClient lib req w
    = (Ok (Some (current, updated), None), w1) →
  storage.Deployed Releases (ureq_Name req) (w_releases w) = (Some current, None) ∧
  w_releases w1 = w_releases w ∧
  release_Name updated = ureq_Name req ∧
  release_Version updated = int32_add (release_Version current) 1 ∧
  release_code updated = Some Status_UNKNOWN ∧
  release_FirstDeployed updated = release_FirstDeployed current.
Proof.
  intros H.
  pose proof (within_run _ _ _ _ _ (within_prepareUpdate Releases KubeClient lib req) H)
    as [Hst _].
  unfold prepareUpdate in H. crunch H.
  repeat match goal with
         | E : deref _ _ = (Ok _, _) |- _ => apply deref_Ok in E as [? ?]
         | E : Releases_Deployed _ _ _ = _ |- _ =>
             rewrite Releases_Deployed_run in E; injection E as ? ?
         end.
  injection H as <- <- _. subst.
  unfold release_code, release_FirstDeployed. simpl.
  rewrite withNotes_code, withNotes_FirstDeployed.
  match goal with E : release_Info _ = Some _ |- _ => rewrite E end.
  done.
Qed.

Lemma coded_code c r r' : coded c r = Some r' → release_code r' = Some c.
Proof.
  unfold coded, release_code. destruct (release_Info r); [|done].
  by intros [= <-].
Qed.

Lemma coded_fields c r r' :
  coded c r = Some r' →
  release_Name r' = release_Name r ∧
  release_Version r' = release_Version r ∧
  release_FirstDeployed r' = release_FirstDeployed r.
Proof.
  unfold coded, release_FirstDeployed. destruct (release_Info r); [|done].
  by intros [= <-].
Qed.

Lemma performUpdate_Ok original updated req w res w' :
  ureq_DryRun req = false →
  performUpdate Releases KubeClient lib original updated req w
    = (Ok (Some res, None), w') →
  ∃ superseded hs wu,
    coded Status_SUPERSEDED original = Some superseded ∧
    coded Status_DEPLOYED (set_release_Hooks hs updated) = Some (ures_Release res) ∧
    w_releases wu = w_releases w ∧
    storage.Update Releases superseded (w_releases w) = (w_releases w', None) ∧
    w' = with_releases (w_releases w') (called (StoreUpdate superseded) wu) ∧
    ∃ d, w_calls wu = w_calls w ++ d.
Proof.
  intros Hdry H. unfold performUpdate in H. rewrite Hdry in H.
  crunch H.
  repeat match goal with
         | E : setCode _ _ _ = _ |- _ => rewrite setCode_run in E
         | E : Releases_Update _ _ _ = _ |- _ => rewrite Releases_Update_run in E
         end.
  match goal with
  | E : hookPhase _ _ _ _ preUpgrade _ = _ |- _ => rename E into Hpre end.
  match goal with
  | E : performKubeUpdate _ _ _ _ = _ |- _ => rename E into Hkube end.
  match goal with
  | E : hookPhase _ _ _ _ postUpgrade _ = _ |- _ => rename E into Hpost end.
  match goal with
  | E : match coded Status_SUPERSEDED _ with _ => _ end = _ |- _ =>
      rename E into Hsup end.
  match goal with
  | E : match coded Status_DEPLOYED _ with _ => _ end = _ |- _ =>
      rename E into Hdep end.
  match goal with
  | E : (Ok (storage.Update _ _ _).2, _) = _ |- _ => rename E into Hupd end.
  destruct (coded Status_SUPERSEDED original) as [superseded|] eqn:Hs; [|done].
  injection Hsup as <- <-.
  injection Hupd as Hupd <-.
  destruct (coded Status_DEPLOYED _) as [deployed|] eqn:Hd in Hdep; [|done].
  injection Hdep as <- <-. injection H as <- <-.
  destruct (hookPhase_Ok _ _ _ _ _ _ _ Hpre) as [Hr _].
  destruct (hookPhase_Ok _ _ _ _ _ _ _ Hpost) as [Hr2 _].
  destruct (within_run _ _ _ _ _ (within_hookPhase KubeClient lib _ _ _) Hpre)
    as (Hs1 & d1 & Hc1 & _).
  destruct (within_run _ _ _ _ _ (within_performKubeUpdate KubeClient _ _) Hkube)
    as (Hs2 & d2 & Hc2 & _).
  destruct (within_run _ _ _ _ _ (within_hookPhase KubeClient lib _ _ _) Hpost)
    as (Hs3 & d3 & Hc3 & _).
  match type of Hpost with _ = (Ok (?r, _), ?wu) =>
    exists superseded, (release_Hooks r), wu end.
  repeat split.
  - simpl. rewrite <- Hd. f_equal. rewrite Hr2 at 2. rewrite Hr. by destruct updated.
  - congruence.
  - simpl. rewrite <- Hs1, <- Hs2, <- Hs3.
    destruct (storage.Update _ _ _). simpl in *. by subst.
  - exists (d1 ++ d2 ++ d3). rewrite Hc3, Hc2, Hc1. by rewrite !app_assoc.
Qed.

(** C2. A live upgrade that succeeds finds the deployed release of the
    name, hands it to the store's [Update] with the status SUPERSEDED,
    and hands to the store's [Create] a new release whose status is
    DEPLOYED, whose version is the deployed version plus one and whose
    first deployment time is that of the deployed release; both store
    operations report no error, and they are the last two calls of the
    handler. *)
Theorem UpdateRelease_supersedes c req w res w' :
  ureq_DryRun req = false →
  UpdateRelease Releases KubeClient lib c req w = (Ok (Some res, None), w') →
  ∃ current superseded st1 d,
    storage.Deployed Releases (ureq_Name req) (w_releases w)
      = (Some current, None) ∧
    coded Status_SUPERSEDED current = Some superseded ∧
    storage.Update Releases superseded (w_releases w) = (st1, None) ∧
    storage.Create Releases (ures_Release res) st1 = (w_releases w', None) ∧
    w_calls w' =
      w_calls w ++ d ++ [StoreUpdate superseded; StoreCreate (ures_Release res)] ∧
    release_code superseded = Some Status_SUPERSEDED ∧
    release_code (ures_Release res) = Some Status_DEPLOYED ∧
    release_Name (ures_Release res) = ureq_Name req ∧
    release_Version (ures_Release res)
      = int32_add (release_Version current) 1 ∧
    ((int32_min ≤ release_Version current < int32_max)%Z →
     release_Version (ures_Release res) = (release_Version current + 1)%Z) ∧
    release_FirstDeployed (ures_Release res) = release_FirstDeployed current.
Proof.
  intros Hdry H. unfold UpdateRelease in H. rewrite Hdry in H.
  change (negb false) with true in H. crunch H.
  match goal with
  | E : checkClientVersion _ _ _ = _ |- _ =>
      apply checkClientVersion_world in E; subst end.
  match goal with
  | E : prepareUpdate _ _ _ _ _ = _ |- _ => rename E into Hprep end.
  match goal with
  | E : performUpdate _ _ _ _ _ _ _ = _ |- _ => rename E into Hperf end.
  repeat match goal with
         | E : deref _ _ = (Ok _, _) |- _ => apply deref_Ok in E as [? ?]
         | E : Releases_Create _ _ _ = _ |- _ => rewrite Releases_Create_run in E
         end.
  subst.
  match goal with
  | E : (Ok (storage.Create _ _ _).2, _) = _ |- _ => injection E as Hcreate <- end.
  injection H as <- <-.
  destruct (within_run _ _ _ _ _
              (within_prepareUpdate Releases KubeClient lib req) Hprep)
    as (_ & dp & Hdp & _).
  apply prepareUpdate_Ok in Hprep as (Hdep & Hst & Hname & Hver & Hcode & Hfirst).
  apply performUpdate_Ok in Hperf
    as (superseded & hs & wu & Hsup & Hnew & Hstu & Hupd & Hw & d & Hd);
    [|done].
  destruct (coded_fields _ _ _ Hnew) as (Hn' & Hv' & Hf').
  match type of Hupd with _ = (w_releases ?w2, _) => set (wp := w2) in * end.
  exists r, superseded, (w_releases wp), (dp ++ d).
  repeat split.
  - done.
  - done.
  - by rewrite <- Hst.
  - simpl. destruct (storage.Create _ _ _). simpl in *. by subst.
  - simpl. rewrite Hw. simpl. rewrite Hd, Hdp.
    by rewrite <- !app_assoc.
  - by eapply coded_code.
  - by eapply coded_code.
  - by rewrite Hn'.
  - by rewrite Hv'.
  - intros Hrange. rewrite Hv'. simpl. rewrite Hver.
    unfold int32_add, int32_wrap, int32_min, int32_max in *.
    rewrite Z.mod_small; lia.
  - by rewrite Hf'.
Qed.

End RunFacts.

(** ** Rollback *)

Section RollbackFacts.
Context {St K Values : Type}.
Variable Releases : storage.Storage St.
Variable KubeClient : kube.Client K.
Variable lib : Library Values.
Implicit Types w : World St K.

Lemma int32_add_1 v : (int32_min ≤ v < int32_max)%Z → int32_add v 1 = (v + 1)%Z.
Proof.
  unfold int32_add, int32_wrap, int32_min, int32_max. intros ?.
  rewrite Z.mod_small; lia.
Qed.

Lemma int32_sub_1 v : (int32_min < v ≤ int32_max)%Z → int32_sub v 1 = (v - 1)%Z.
Proof.
  unfold int32_sub, int32_wrap, int32_min, int32_max. intros ?.
  rewrite Z.mod_small; lia.
Qed.

(** C3. For a rollback of a name whose deployed release has version v:
    when the store reports (name, v-1) as not found, the preparation
    fails with the not-found error; when the store holds it, the
    prepared release has the chart, the config, the manifest and the
    hooks of release (name, v-1) and the version v+1. *)
Theorem prepareRollback_previous req w current :
  rreq_Name req ≠ EmptyString →
  storage.Deployed Releases (rreq_Name req) (w_releases w) = (Some current, None) →
  (int32_min < release_Version current < int32_max)%Z →
  let v := release_Version current in
  let found := storage.Get Releases (rreq_Name req) (v - 1) (w_releases w) in
  let w1 := called (StoreGet (rreq_Name req) (v - 1))
                   (called (StoreDeployed (rreq_Name req)) w) in
  (found.2 = Some ErrReleaseNotFound →
   prepareRollback Releases lib req w = (Ok (None, Some ErrReleaseNotFound), w1)) ∧
  (∀ previous,
     found = (Some previous, None) →
     is_Some (release_Info current) → is_Some (release_Info previous) →
     ∃ target w',
       prepareRollback Releases lib req w
         = (Ok (Some (current, target), None), w') ∧
       w_releases w' = w_releases w ∧
       release_Chart target = release_Chart previous ∧
       release_Config target = release_Config previous ∧
       release_Manifest target = release_Manifest previous ∧
       release_Hooks target = release_Hooks previous ∧
       release_Version target = (v + 1)%Z).
Proof.
  intros Hname Hdep Hrange v found w1.
  assert (Hrun : prepareRollback Releases lib req w =
    match found with
    | (_, Some e) => (Ok (None, Some e), w1)
    | (previous, None) =>
        (ts ← Now lib;
         previousRelease ← deref previous;
         currentInfo ← deref (release_Info current);
         previousInfo ← deref (release_Info previousRelease);
         mret (Some (current,
                     mkRelease
                       (rreq_Name req)
                       (Some (mkInfo
                                (mkStatus Status_UNKNOWN
                                   (status_Notes (info_Status previousInfo))
                                   EmptyString)
                                (info_FirstDeployed currentInfo)
                                (Some ts) None))
                       (release_Chart previousRelease)
                       (release_Config previousRelease)
                       (release_Manifest previousRelease)
                       (release_Hooks previousRelease)
                       (int32_add (release_Version current) 1)
                       (release_Namespace current)), None) : M St K _) w1
    end).
  { unfold prepareRollback. rewrite decide_False by done.
    rewrite bind_run, Releases_Deployed_run, Hdep. simpl.
    rewrite bind_run. simpl. rewrite bind_run, Releases_Get_run.
    rewrite int32_sub_1 by lia. fold v. simpl. fold found.
    destruct found as [previous [e|]]; reflexivity. }
  split.
  - intros Herr. rewrite Hrun. destruct found as [previous err].
    simpl in Herr. by subst err.
  - intros previous Hfound [ci Hci] [pi Hpi]. rewrite Hrun, Hfound.
    rewrite bind_run. unfold Now. rewrite bind_run. simpl.
    rewrite bind_run. simpl. rewrite bind_run, Hci. simpl.
    rewrite bind_run, Hpi. simpl.
    eexists _, _. split; [reflexivity|]. simpl.
    repeat split; try done. apply int32_add_1. lia.
Qed.

End RollbackFacts.

(** ** Install *)

Section InstallFacts.
Context {St K Values : Type}.
Variable Releases : storage.Storage St.
Variable KubeClient : kube.Client K.
Variable lib : Library Values.
Implicit Types w : World St K.

Lemma within_checkClientVersion P c :
  Within P (checkClientVersion lib c : M St K _).
Proof.
  unfold checkClientVersion, getVersion. within_auto.
Qed.

Lemma performRelease_dry_run r req w :
  ireq_DryRun req = true →
  performRelease Releases KubeClient lib r req w
    = (Ok (mkInstallReleaseResponse r, None), w).
Proof. intros Hdry. unfold performRelease. by rewrite Hdry. Qed.

Lemma within_InstallRelease_dry_run c req :
  ireq_DryRun req = true →
  Within lookup_call (InstallRelease Releases KubeClient lib c req).
Proof.
  intros Hdry.
  pose proof (within_checkClientVersion lookup_call).
  pose proof (within_prepareRelease Releases KubeClient lib).
  unfold InstallRelease, performRelease. rewrite Hdry. within_auto.
Qed.

(** C5. An install with dry-run set leaves the store as it is and makes
    only lookups in the store and discovery requests to the
    orchestrator: no Create and no Update in the store, no hook submitted
    and no manifest created.  When the client is compatible and the
    release is prepared, the handler returns exactly that release, with
    no error, in the world the preparation ended in: the perform step
    hands back the release it is given and makes no call at all. *)
Theorem InstallRelease_dry_run c req w :
  ireq_DryRun req = true →
  let '(out, w') := InstallRelease Releases KubeClient lib c req w in
  w_releases w' = w_releases w ∧
  (∃ d, w_calls w' = w_calls w ++ d ∧
        Forall (λ c, lookup_call c = true) d ∧
        Forall (λ c, store_write_call c = false ∧ apply_call c = false) d) ∧
  (∀ rel w1,
     checkClientVersion lib c w = (Ok true, w) →
     prepareRelease Releases KubeClient lib req w = (Ok (Some rel, None), w1) →
     out = Ok (Some (mkInstallReleaseResponse rel), None) ∧ w' = w1) ∧
  (∀ r w0,
     performRelease Releases KubeClient lib r req w0
       = (Ok (mkInstallReleaseResponse r, None), w0)).
Proof.
  intros Hdry.
  destruct (InstallRelease Releases KubeClient lib c req w) as [out w'] eqn:Hrun.
  destruct (within_run _ _ _ _ _ (within_InstallRelease_dry_run c req Hdry) Hrun)
    as (Hst & d & Hc & Hd).
  split; [done|]. split; [|split].
  - exists d. repeat split; try done.
    eapply Forall_impl; [exact Hd|]. by intros [].
  - intros rel w1 Hcheck Hprep. unfold InstallRelease in Hrun.
    rewrite (bind_Ok _ _ _ _ _ Hcheck) in Hrun. simpl in Hrun.
    rewrite (bind_Ok _ _ _ _ _ Hprep) in Hrun. simpl in Hrun.
    rewrite bind_run in Hrun. simpl in Hrun.
    rewrite bind_run, performRelease_dry_run in Hrun by done.
    by injection Hrun as <- <-.
  - intros r w0. by apply performRelease_dry_run.
Qed.

(** *** performRelease on a failing step *)

(** A failure of the pre-install hook phase is returned as it is: the
    release keeps its status and the store is not called. *)
Lemma performRelease_pre_install_failure r req w r' e w' :
  ireq_DryRun req = false →
  hookPhase KubeClient lib (ireq_DisableHooks req) r preInstall w
    = (Ok (r', Some e), w') →
  performRelease Releases KubeClient lib r req w
    = (Ok (mkInstallReleaseResponse r', Some e), w') ∧
  release_Info r' = release_Info r ∧
  w_releases w' = w_releases w ∧
  ∃ d, w_calls w' = w_calls w ++ d ∧ Forall (λ c, store_call c = false) d.
Proof.
  intros Hdry Hpre. split; [|split; [|split]].
  - unfold performRelease. rewrite Hdry.
    by rewrite (bind_Ok _ _ _ _ _ Hpre).
  - destruct (hookPhase_Ok KubeClient lib _ _ _ _ _ _ _ Hpre) as [-> _]. done.
  - by destruct (hookPhase_Ok KubeClient lib _ _ _ _ _ _ _ Hpre).
  - destruct (within_run _ _ _ _ _ (within_hookPhase KubeClient lib _ _ _) Hpre)
      as (_ & d & Hc & Hd).
    exists d. split; [done|]. eapply Forall_impl; [exact Hd|]. by intros [].
Qed.

(** A failure of the creation of the manifest, or of the post-install
    hook phase, marks the release FAILED and hands it to the store. *)
Lemma performRelease_create_failure r req w r1 w1 e w2 failed :
  ireq_DryRun req = false →
  hookPhase KubeClient lib (ireq_DisableHooks req) r preInstall w
    = (Ok (r1, None), w1) →
  kubeCli_Create KubeClient (release_Namespace r1) (release_Manifest r1) w1
    = (Ok (Some e), w2) →
  coded Status_FAILED r1 = Some failed →
  ∃ e', performRelease Releases KubeClient lib r req w
    = (Ok (mkInstallReleaseResponse failed, Some e'),
       (recordRelease Releases failed (ireq_ReuseName req) w2).2).
Proof.
  intros Hdry Hpre Hcreate Hfailed. eexists.
  unfold performRelease. rewrite Hdry.
  rewrite (bind_Ok _ _ _ _ _ Hpre). simpl.
  rewrite (bind_Ok _ _ _ _ _ Hcreate). simpl.
  rewrite bind_run, setCode_run, Hfailed, bind_run.
  destruct (recordRelease _ _ _ _) as [[[]|p] w3] eqn:Hrec; simpl.
  - reflexivity.
  - exfalso. unfold recordRelease in Hrec.
    destruct (ireq_ReuseName req); rewrite bind_run in Hrec.
    + by rewrite Releases_Update_run in Hrec.
    + by rewrite Releases_Create_run in Hrec.
Qed.

Lemma performRelease_post_install_failure r req w r1 w1 w2 r3 e w3 failed :
  ireq_DryRun req = false →
  hookPhase KubeClient lib (ireq_DisableHooks req) r preInstall w
    = (Ok (r1, None), w1) →
  kubeCli_Create KubeClient (release_Namespace r1) (release_Manifest r1) w1
    = (Ok None, w2) →
  hookPhase KubeClient lib (ireq_DisableHooks req) r1 postInstall w2
    = (Ok (r3, Some e), w3) →
  coded Status_FAILED r3 = Some failed →
  performRelease Releases KubeClient lib r req w
    = (Ok (mkInstallReleaseResponse failed, Some e),
       (recordRelease Releases failed (ireq_ReuseName req) w3).2).
Proof.
  intros Hdry Hpre Hcreate Hpost Hfailed.
  unfold performRelease. rewrite Hdry.
  rewrite (bind_Ok _ _ _ _ _ Hpre). simpl.
  rewrite (bind_Ok _ _ _ _ _ Hcreate). simpl.
  rewrite (bind_Ok _ _ _ _ _ Hpost). simpl.
  rewrite bind_run, setCode_run, Hfailed, bind_run.
  destruct (recordRelease _ _ _ _) as [[[]|p] w4] eqn:Hrec; simpl.
  - reflexivity.
  - exfalso. unfold recordRelease in Hrec.
    destruct (ireq_ReuseName req); rewrite bind_run in Hrec.
    + by rewrite Releases_Update_run in Hrec.
    + by rewrite Releases_Create_run in Hrec.
Qed.

(** What [recordRelease] does to the world: one call to the store,
    [Update] when the name is reused and [Create] otherwise. *)
Lemma recordRelease_run r reuse w :
  recordRelease Releases r reuse w =
  (Ok tt,
   if reuse
   then with_releases (storage.Update Releases r (w_releases w)).1
                      (called (StoreUpdate r) w)
   else with_releases (storage.Create Releases r (w_releases w)).1
                      (called (StoreCreate r) w)).
Proof.
  unfold recordRelease. destruct reuse; rewrite bind_run.
  - by rewrite Releases_Update_run.
  - by rewrite Releases_Create_run.
Qed.

End InstallFacts.

(** ** Status and list *)

Section QueryFacts.
Context {St K Values : Type}.
Variable Releases : storage.Storage St.
Variable KubeClient : kube.Client K.
Variable lib : Library Values.
Implicit Types w : World St K.

Lemma kubeCli_Get_run ns m w :
  kubeCli_Get KubeClient ns m w =
  (Ok (kube.Get KubeClient ns m (w_kube w)).2,
   with_kube (kube.Get KubeClient ns m (w_kube w)).1 (called (KubeGet ns m) w)).
Proof.
  unfold kubeCli_Get. rewrite bind_run. simpl. unfold kube_call. simpl.
  by destruct (kube.Get KubeClient ns m (w_kube w)).
Qed.

(** C6, as the code has it. For a status request on a release whose
    stored status is DELETED or FAILED, the orchestrator's [Get] is still
    called on the stored manifest, and whatever it answers, resources or
    error, is dropped: the response carries the stored info and the
    namespace, with no error. *)
Theorem GetReleaseStatus_deleted_or_failed c req w rel info :
  checkClientVersion lib c w = (Ok true, w) →
  sreq_Name req ≠ EmptyString →
  (statusLookup Releases req (w_releases w)).2 = (Some rel, None) →
  release_Info rel = Some info →
  is_Some (release_Chart rel) →
  status_Code (info_Status info) = Status_DELETED ∨
  status_Code (info_Status info) = Status_FAILED →
  let ns := release_Namespace rel in
  let manifest := release_Manifest rel in
  GetReleaseStatus Releases KubeClient lib c req w =
  (Ok (Some (mkGetReleaseStatusResponse info ns), None),
   with_kube (kube.Get KubeClient ns manifest (w_kube w)).1
             (called (KubeGet ns manifest)
                     (called (statusLookup Releases req (w_releases w)).1 w))).
Proof.
  intros Hcheck Hname Hlookup Hinfo [ch Hchart] Hcode ns manifest.
  unfold GetReleaseStatus. rewrite (bind_Ok _ _ _ _ _ Hcheck). simpl.
  rewrite decide_False by done. unfold statusLookup in *.
  rewrite bind_run.
  destruct (decide (sreq_Version req ≤ 0)%Z); simpl in Hlookup.
  - rewrite bind_run, Releases_Deployed_run, Hlookup. simpl.
    rewrite bind_run. simpl. rewrite Hinfo, Hchart.
    rewrite bind_run, kubeCli_Get_run. fold ns manifest.
    destruct (kube.Get KubeClient ns manifest _) as [k [resp err]]. simpl.
    by destruct Hcode as [-> | ->].
  - rewrite bind_run, Releases_Get_run, Hlookup. simpl.
    rewrite bind_run. simpl. rewrite Hinfo, Hchart.
    rewrite bind_run, kubeCli_Get_run. fold ns manifest.
    destruct (kube.Get KubeClient ns manifest _) as [k [resp err]]. simpl.
    by destruct Hcode as [-> | ->].
Qed.

(** C7, for a limit that is not negative. Once the releases are
    filtered, sorted and cut at the offset, the handler sends one
    response.  A limit of 0 stands for 512.  When there are more releases
    than the limit, the response holds the first limit of them, as many
    as the limit, and its next field is the name of the release that
    follows them; otherwise it holds them all and next is empty. *)
Theorem ListReleases_page_cut c req w total rels w1 :
  ListReleases_select Releases lib c req w = (Ok (total, rels, None), w1) →
  (0 ≤ lreq_Limit req)%Z →
  let limit := pageLimit req in
  ∃ res,
    ListReleases Releases lib c req w
      = (Ok (stream_Send lib res), called (StreamSend res) w1) ∧
    lres_Total res = total ∧
    (lreq_Limit req = 0%Z → limit = 512%Z) ∧
    ((limit < len rels)%Z →
     lres_Releases res = take (Z.to_nat limit) rels ∧
     len (lres_Releases res) = limit ∧
     lres_Count res = limit ∧
     ∃ r, rels !! Z.to_nat limit = Some r ∧ lres_Next res = release_Name r) ∧
    ((len rels ≤ limit)%Z →
     lres_Releases res = rels ∧
     lres_Count res = len rels ∧
     lres_Next res = EmptyString).
Proof.
  intros Hsel Hlimit limit.
  assert (Hpos : (0 ≤ limit)%Z).
  { unfold limit, pageLimit, ListDefaultLimit. destruct (decide _); lia. }
  assert (Hzero : lreq_Limit req = 0%Z → limit = 512%Z).
  { intros H0. unfold limit, pageLimit. by rewrite decide_True. }
  unfold ListReleases. rewrite (bind_Ok _ _ _ _ _ Hsel). simpl.
  unfold ListReleases_page. fold (pageLimit req). fold limit.
  rewrite bind_run.
  destruct (decide (limit < len rels)%Z) as [Hlt|Hge].
  - assert (Hnth : is_Some (rels !! Z.to_nat limit)).
    { apply lookup_lt_is_Some. unfold len in Hlt. lia. }
    destruct Hnth as [r Hr].
    rewrite bind_run. unfold index. rewrite decide_True by done.
    rewrite Hr. simpl.
    eexists. split; [reflexivity|]. simpl.
    assert (Hlen : len (take (Z.to_nat limit) rels) = limit).
    { unfold len in *. rewrite length_take. lia. }
    split; [done|]. split; [done|]. split.
    + intros _. split; [done|]. split; [done|]. split; [done|]. by exists r.
    + intros Hle. lia.
  - simpl. eexists. split; [reflexivity|]. simpl.
    split; [done|]. split; [done|]. split.
    + intros Hlt. lia.
    + done.
Qed.

End QueryFacts.

(** * The properties at concrete requests *)

(** C1 (how the code behaves). A live install whose chart carries a
    pre-install hook that the orchestrator refuses: the handler returns
    the error with the release, whose status is still UNKNOWN, and the
    store, empty before, is empty after; no call writes to it. *)
Theorem InstallRelease_pre_install_failure_unrecorded :
  let req := fixture.install fixture.chartBadHook false in
  let run := InstallRelease memory.store fixture.cluster fixture.packages
                            fixture.client req (fixture.world []) in
  ireq_DryRun req = false ∧
  ∃ res,
    run.1 = Ok (Some res, Some fixture.refused) ∧
    release_code (ires_Release res) = Some Status_UNKNOWN ∧
    w_releases run.2 = [] ∧
    List.filter store_write_call (w_calls run.2) = [] ∧
    submitted (w_calls run.2) = ["bad"].
Proof.
  intros req run. split; [reflexivity|].
  vm_compute. eexists. repeat split.
Qed.

(** The same install when it is the creation of the manifest that the
    orchestrator refuses: the release is in the store afterwards, with
    the status FAILED. *)
Example InstallRelease_create_failure_recorded :
  let req := fixture.install fixture.chartBadManifest false in
  let run := InstallRelease memory.store fixture.cluster fixture.packages
                            fixture.client req (fixture.world []) in
  ∃ res e r,
    run.1 = Ok (Some res, Some e) ∧
    release_code (ires_Release res) = Some Status_FAILED ∧
    memory.Get "foo" 1 (w_releases run.2) = (Some r, None) ∧
    release_code r = Some Status_FAILED.
Proof.
  intros req run. vm_compute. eexists _, _, _. repeat split.
Qed.

Lemma uniqName_requested_witness :
  let w := fixture.world fixture.deployedStore in
  "foo" ≠ EmptyString ∧
  uniqName memory.store fixture.packages "foo" false w
  = (Ok (EmptyString, Some (errNameExists "foo")), called (StoreGet "foo" 1) w).
Proof.
  intros w. split; [done|].
  destruct (uniqName_requested memory.store fixture.packages "foo" false w)
    as [_ H]; [done|].
  destruct H as [_ H]; [simpl; lia|].
  by eapply H.
Defined.

Lemma uniqName_nil_dereference_witness :
  let w := fixture.world tt in
  storage.Get fixture.downStore "foo" 1 (w_releases w)
    = (None, Some fixture.unreachable) ∧
  uniqName fixture.downStore fixture.packages "foo" true w
  = (Panicked NilDereference, called (StoreGet "foo" 1) w).
Proof.
  intros w. split; [reflexivity|].
  apply (uniqName_nil_dereference fixture.downStore fixture.packages
           "foo" true w fixture.unreachable);
    [done | simpl; lia | reflexivity | done].
Defined.

Lemma execHook_phase_witness :
  let w := fixture.world tt in
  events preInstall = Some Hook_PRE_INSTALL ∧
  ∃ first later stuck w',
    fixture.hooks = [first; later; stuck] ∧
    execHook fixture.cluster fixture.packages fixture.hooks
             "foo" "default" preInstall w
      = (Ok ([set_hook_LastRun (Some (timeconv_Now fixture.packages 0)) first;
              later; stuck],
             Some fixture.notReady), w') ∧
    w_calls w' = [KubeCreate "default" "first";
                  KubeWatchUntilReady "default" "first";
                  KubeCreate "default" "unready";
                  KubeWatchUntilReady "default" "unready"].
Proof.
  intros w. split; [reflexivity|].
  destruct (execHook_phase fixture.cluster fixture.packages fixture.hooks
              "foo" "default" preInstall Hook_PRE_INSTALL w eq_refl)
    as (ran & ran' & rest & err & w' & failed
        & Hrun & Hhs & _ & Hstamp & Hready & _ & _ & Hcalls & _ & Herr).
  eexists _, _, _, w'. split; [reflexivity|].
  assert (Hran : ran = take 2 fixture.hooks ∧ rest = drop 2 fixture.hooks
                 ∧ err = Some fixture.notReady
                 ∧ failed = [KubeCreate "default" "unready";
                             KubeWatchUntilReady "default" "unready"]).
  { unfold fixture.hooks in Hhs.
    destruct err as [e|]; [|destruct Herr as (-> & _ & _)].
    - destruct Herr as (h & rest' & -> & Hin & Hfail).
      destruct ran as [|a [|b [|c ran]]]; simpl in Hhs;
        [injection Hhs as <- <- | injection Hhs as <- <- <-
        | injection Hhs as <- <- <- <- | injection Hhs as _ _ _ Hnil].
      + destruct Hfail as [(_ & Hc & _)|(_ & _ & Hc & _)]; discriminate Hc.
      + apply elem_of_cons in Hin as [Hin|Hin];
          [discriminate Hin | by apply not_elem_of_nil in Hin].
      + destruct Hfail as [(_ & Hc & _)|(-> & _ & Hc & _)];
          [discriminate Hc|].
        injection Hc as <-. by repeat split.
      + by destruct ran.
    - rewrite app_nil_r in Hhs. subst ran. discriminate Hready. }
  destruct Hran as (-> & -> & -> & ->). subst ran'.
  split; [exact Hrun | exact Hcalls].
Defined.

Lemma InstallRelease_dry_run_witness :
  let req := fixture.install fixture.chartBadHook true in
  let run := InstallRelease memory.store fixture.cluster fixture.packages
                            fixture.client req (fixture.world []) in
  ireq_DryRun req = true ∧ w_releases run.2 = [].
Proof.
  intros req run. split; [reflexivity|].
  pose proof (InstallRelease_dry_run memory.store fixture.cluster
                fixture.packages fixture.client req (fixture.world []) eq_refl)
    as H.
  subst run.
  destruct (InstallRelease _ _ _ _ _ _) as [out w'].
  by destruct H as [H _].
Defined.

(** C6 (where the claim fails). A status request on a FAILED release:
    the orchestrator's [Get] is called on the stored manifest, and the
    cluster has received one more call. *)
Lemma GetReleaseStatus_failed_calls_Get :
  let w := fixture.world fixture.failedStore in
  let run := GetReleaseStatus memory.store fixture.cluster fixture.packages
                              fixture.client fixture.status w in
  memory.Get "foo" 1 fixture.failedStore
    = (Some (fixture.stored 1 Status_FAILED "kind: ConfigMap"), None) ∧
  w_calls run.2 = [StoreGet "foo" 1; KubeGet "default" "kind: ConfigMap"] ∧
  w_kube w = 0 ∧ w_kube run.2 = 1.
Proof. vm_compute. repeat split. Qed.

Lemma GetReleaseStatus_deleted_or_failed_witness :
  let w := fixture.world fixture.failedStore in
  let rel := fixture.stored 1 Status_FAILED "kind: ConfigMap" in
  (statusLookup memory.store fixture.status (w_releases w)).2 = (Some rel, None) ∧
  ∃ info w',
    release_Info rel = Some info ∧
    GetReleaseStatus memory.store fixture.cluster fixture.packages
                     fixture.client fixture.status w
    = (Ok (Some (mkGetReleaseStatusResponse info "default"), None), w').
Proof.
  intros w rel. split; [reflexivity|].
  eexists _, _. split; [reflexivity|].
  apply (GetReleaseStatus_deleted_or_failed memory.store fixture.cluster
           fixture.packages fixture.client fixture.status w rel);
    [reflexivity | done | reflexivity | reflexivity | by eexists | by right].
Defined.

(** C7 (where the claim fails). A list request with the limit -1: one
    release is selected, which is more than the limit, and the handler
    panics on the index instead of returning a page. *)
Lemma ListReleases_negative_limit_panics :
  let w := fixture.world fixture.deployedStore in
  let req := fixture.listing (-1) in
  (∃ total rels w1,
     ListReleases_select memory.store fixture.packages fixture.client req w
       = (Ok (total, rels, None), w1) ∧
     (lreq_Limit req < len rels)%Z) ∧
  (ListReleases memory.store fixture.packages fixture.client req w).1
    = Panicked IndexOutOfRange.
Proof.
  intros w req. split.
  - eexists _, _, _. split; [vm_compute; reflexivity|]. done.
  - vm_compute. reflexivity.
Qed.

Lemma ListReleases_page_cut_witness :
  let w := fixture.world fixture.pairStore in
  let req := fixture.listing 1 in
  (0 ≤ lreq_Limit req)%Z ∧
  ∃ total rels w1 res,
    ListReleases_select memory.store fixture.packages fixture.client req w
      = (Ok (total, rels, None), w1) ∧
    ListReleases memory.store fixture.packages fixture.client req w
      = (Ok (stream_Send fixture.packages res), called (StreamSend res) w1) ∧
    lres_Count res = 1%Z.
Proof.
  intros w req. split; [simpl; lia|].
  eassert (Hsel : ListReleases_select memory.store fixture.packages
                    fixture.client req w = (Ok (_, _, None), _))
    by (vm_compute; reflexivity).
  destruct (ListReleases_page_cut memory.store fixture.packages fixture.client
              req w _ _ _ Hsel) as (res & Hrun & _ & _ & Hcut & _);
    [simpl; lia|].
  destruct Hcut as (_ & _ & Hcount & _); [vm_compute; reflexivity|].
  eexists _, _, _, res.
  split; [exact Hsel|]. split; [exact Hrun | exact Hcount].
Defined.

Lemma UpdateRelease_supersedes_witness :
  let w := fixture.world fixture.deployedStore in
  let req := fixture.upgrade fixture.chart in
  ureq_DryRun req = false ∧
  ∃ res w' superseded,
    UpdateRelease memory.store fixture.cluster fixture.packages
                  fixture.client req w = (Ok (Some res, None), w') ∧
    release_code (ures_Release res) = Some Status_DEPLOYED ∧
    release_Version (ures_Release res) = 2%Z ∧
    memory.Get "foo" 1 (w_releases w') = (Some superseded, None) ∧
    release_code superseded = Some Status_SUPERSEDED.
Proof.
  intros w req. split; [reflexivity|].
  eassert (Hrun : UpdateRelease memory.store fixture.cluster fixture.packages
                    fixture.client req w = (Ok (Some _, None), _))
    by (vm_compute; reflexivity).
  destruct (UpdateRelease_supersedes memory.store fixture.cluster
              fixture.packages fixture.client req w _ _ eq_refl Hrun)
    as (current & superseded & st1 & d & _ & _ & _ & _ & _ & _
        & Hcode & _).
  eexists _, _, _. split; [exact Hrun|]. split; [exact Hcode|].
  split; [vm_compute; reflexivity|].
  split; vm_compute; reflexivity.
Defined.

Lemma prepareRollback_previous_witness :
  let w := fixture.world fixture.upgradedStore in
  let current := fixture.stored 2 Status_DEPLOYED "kind: Secret" in
  let previous := fixture.stored 1 Status_SUPERSEDED "kind: ConfigMap" in
  storage.Deployed memory.store "foo" (w_releases w) = (Some current, None) ∧
  storage.Get memory.store "foo" 1 (w_releases w) = (Some previous, None) ∧
  ∃ target w',
    prepareRollback memory.store fixture.packages fixture.rollback w
      = (Ok (Some (current, target), None), w') ∧
    release_Manifest target = release_Manifest previous ∧
    release_Version target = 3%Z.
Proof.
  intros w current previous.
  split; [vm_compute; reflexivity|]. split; [vm_compute; reflexivity|].
  destruct (prepareRollback_previous memory.store fixture.packages
              fixture.rollback w current)
    as [_ H];
    [discriminate | vm_compute; reflexivity
     | vm_compute; split; reflexivity |].
  destruct (H previous) as (target & w' & Hrun & _ & _ & _ & Hm & _ & Hv);
    [vm_compute; reflexivity | by eexists | by eexists|].
  exists target, w'. split; [exact Hrun|]. split; [exact Hm | exact Hv].
Defined.

Lemma UpdateRelease_apply_failure_witness :
  let w := fixture.world fixture.deployedStore in
  let req := fixture.upgrade fixture.chartBadHook in
  ureq_DryRun req = false ∧
  ∃ e w',
    UpdateRelease memory.store fixture.cluster fixture.packages
                  fixture.client req w = (Ok (None, Some e), w') ∧
    w_releases w' = w_releases w.
Proof.
  intros w req. split; [reflexivity|].
  eassert (Hprep : prepareUpdate memory.store fixture.cluster fixture.packages
                     req w = (Ok (Some (_, _), None), _))
    by (vm_compute; reflexivity).
  match type of Hprep with
  | _ = (Ok (Some (_, ?upd), None), ?w1) =>
      eassert (Hpre : hookPhase fixture.cluster fixture.packages
                        (ureq_DisableHooks req) upd preUpgrade w1
                      = (Ok (_, Some _), _))
        by (vm_compute; reflexivity)
  end.
  destruct (UpdateRelease_apply_failure memory.store fixture.cluster
              fixture.packages fixture.client req w _ _ _ _ _
              eq_refl eq_refl Hprep
              (pre_upgrade_fails _ _ _ _ _ _ _ _ _ Hpre))
    as (Hrun & Hst & _).
  eexists _, _. split; [exact Hrun | exact Hst].
Defined.

(** * Further properties of the handlers *)

(** ** The version gate and the query handlers *)

Section GateFacts.
Context {St K Values : Type}.
Variable Releases : storage.Storage St.
Variable KubeClient : kube.Client K.
Variable lib : Library Values.
Implicit Types w : World St K.

(** X1. A client whose version is not compatible is turned away by every
    handler with the incompatible-version error before anything else
    happens: no call is made, nothing is sent, the world is as it was. *)
Theorem incompatible_client_rejected c w :
  checkClientVersion lib c w = (Ok false, w) →
  (∀ req, ListReleases Releases lib c req w
          = (Ok (Some errIncompatibleVersion), w)) ∧
  (∀ req, GetReleaseStatus Releases KubeClient lib c req w
          = (Ok (None, Some errIncompatibleVersion), w)) ∧
  (∀ req, GetReleaseContent Releases lib c req w
          = (Ok (None, Some errIncompatibleVersion), w)) ∧
  (∀ req, UpdateRelease Releases KubeClient lib c req w
          = (Ok (None, Some errIncompatibleVersion), w)) ∧
  (∀ req, RollbackRelease Releases KubeClient lib c req w
          = (Ok (None, Some errIncompatibleVersion), w)) ∧
  (∀ req, InstallRelease Releases KubeClient lib c req w
          = (Ok (None, Some errIncompatibleVersion), w)).
Proof.
  intros Hcheck. repeat split; intros req.
  - unfold ListReleases, ListReleases_select.
    rewrite bind_run, (bind_Ok _ _ _ _ _ Hcheck). reflexivity.
  - unfold GetReleaseStatus. by rewrite (bind_Ok _ _ _ _ _ Hcheck).
  - unfold GetReleaseContent. by rewrite (bind_Ok _ _ _ _ _ Hcheck).
  - unfold UpdateRelease. by rewrite (bind_Ok _ _ _ _ _ Hcheck).
  - unfold RollbackRelease. by rewrite (bind_Ok _ _ _ _ _ Hcheck).
  - unfold InstallRelease. by rewrite (bind_Ok _ _ _ _ _ Hcheck).
Qed.

Lemma within_OnlyCalls {A} P (m : M St K A) : Within P m → OnlyCalls P m.
Proof. intros H w. by destruct (H w). Qed.

Lemma within_kubeCli_Get P ns m :
  P (KubeGet ns m) = true →
  Within P (kubeCli_Get KubeClient ns m : M St K _).
Proof. intros. unfold kubeCli_Get. within_auto. Qed.

Lemma within_Releases_ListFilterAll P filter :
  P StoreListFilterAll = true →
  Within P (Releases_ListFilterAll Releases filter : M St K _).
Proof. intros. unfold Releases_ListFilterAll. within_auto. Qed.

Lemma within_ListReleases_select c req :
  Within lookup_call (ListReleases_select Releases lib c req : M St K _).
Proof.
  pose proof (within_checkClientVersion lib lookup_call (St:=St) (K:=K)).
  pose proof within_Releases_ListFilterAll.
  unfold ListReleases_select, filterReleases, sort. within_auto.
Qed.

Lemma within_ListReleases c req :
  Within query_call (ListReleases Releases lib c req : M St K _).
Proof.
  pose proof (within_mono lookup_call query_call
                (ListReleases_select Releases lib c req : M St K _)) as Hsel.
  unfold ListReleases. apply within_bind.
  - apply Hsel; [by intros [] | apply within_ListReleases_select].
  - intros [[total rels] [e|]]; [apply within_ret|].
    unfold ListReleases_page, index, stream_send. within_auto.
Qed.

Lemma onlyCalls_bind {A B} P (m : M St K A) (f : A → M St K B) :
  OnlyCalls P m → (∀ a, OnlyCalls P (f a)) → OnlyCalls P (m ≫= f).
Proof.
  intros Hm Hf w. rewrite bind_run.
  destruct (Hm w) as (d & Hc & Hd).
  destruct (m w) as [[a|p] w1]; simpl in *; [|by exists d].
  destruct (Hf a w1) as (d' & Hc' & Hd').
  exists (d ++ d'). rewrite Hc', Hc, assoc_L by apply _.
  split; [done|]. by apply Forall_app.
Qed.

Lemma onlyCalls_written P r :
  OnlyCalls P (Releases_written Releases r : M St K _).
Proof. intros w. exists []. by rewrite app_nil_r. Qed.

Lemma onlyCalls_GetReleaseStatus c req :
  OnlyCalls query_call (GetReleaseStatus Releases KubeClient lib c req).
Proof.
  pose proof (within_checkClientVersion lib query_call (St:=St) (K:=K)).
  pose proof (within_Releases_Get Releases query_call (K:=K)).
  pose proof (within_Releases_Deployed Releases query_call (K:=K)).
  pose proof (within_kubeCli_Get query_call).
  unfold GetReleaseStatus.
  repeat match goal with
         | |- OnlyCalls _ (Releases_written _ _) => apply onlyCalls_written
         | |- OnlyCalls _ (_ ≫= _) => apply onlyCalls_bind; [|intros]
         | |- OnlyCalls _ (match ?x with _ => _ end) => destruct x
         | |- OnlyCalls _ (if ?x then _ else _) => destruct x
         | |- OnlyCalls _ (let '(_, _) := ?x in _) => destruct x
         | |- OnlyCalls _ _ => apply within_OnlyCalls; solve [within_auto]
         end.
Qed.

Lemma within_GetReleaseContent c req :
  Within query_call (GetReleaseContent Releases lib c req : M St K _).
Proof.
  pose proof (within_checkClientVersion lib query_call (St:=St) (K:=K)).
  pose proof (within_Releases_Get Releases query_call (K:=K)).
  pose proof (within_Releases_Deployed Releases query_call (K:=K)).
  unfold GetReleaseContent. within_auto.
Qed.

(** X2. The three query handlers, whatever they are asked and however
    they end, make only lookups in the store, the orchestrator's [Get]
    and the sending of the response: no [Create] or [Update] reaches the
    store, and nothing is created, waited for or updated in the
    orchestrator. *)
Theorem query_handlers_only_query c :
  (∀ req, OnlyCalls query_call
            (ListReleases Releases lib c req : M St K _)) ∧
  (∀ req, OnlyCalls query_call
            (GetReleaseStatus Releases KubeClient lib c req)) ∧
  (∀ req, OnlyCalls query_call
            (GetReleaseContent Releases lib c req : M St K _)) ∧
  (∀ cl, query_call cl = true →
         store_write_call cl = false ∧ apply_call cl = false).
Proof.
  repeat split.
  - intros req. apply within_OnlyCalls, within_ListReleases.
  - intros req. apply onlyCalls_GetReleaseStatus.
  - intros req. apply within_OnlyCalls, within_GetReleaseContent.
  - by destruct cl.
  - by destruct cl.
Qed.

End GateFacts.

(** ** Listing: the offset and the response *)

Section ListFacts.
Context {St K Values : Type}.
Variable Releases : storage.Storage St.
Variable lib : Library Values.
Implicit Types w : World St K.

Lemma offsetIndex_from offset rels ii i :
  (i < ii)%Z →
  let r := offsetIndex offset rels ii i in
  (Forall (λ x, release_Name x ≠ offset) rels ∧ r = i) ∨
  ((ii ≤ r < ii + len rels)%Z ∧
   ∃ x, rels !! Z.to_nat (r - ii) = Some x ∧ release_Name x = offset ∧
        Forall (λ x, release_Name x ≠ offset)
               (drop (S (Z.to_nat (r - ii))) rels)).
Proof.
  revert ii i. induction rels as [|cur rest IH]; intros ii i Hlt; simpl.
  { left. by split. }
  set (i' := if decide (release_Name cur = offset) then ii else i).
  assert (Hlt' : (i' < ii + 1)%Z).
  { unfold i'. destruct (decide _); lia. }
  destruct (IH (ii + 1)%Z i' Hlt') as [[Hnone Hr] | [Hrange (x & Hx & Hname & Hafter)]].
  - rewrite Hr. unfold i'. destruct (decide _) as [Heq|Hne].
    + right. unfold len. simpl. split; [lia|].
      exists cur. replace (ii - ii)%Z with 0%Z by lia. simpl.
      rewrite drop_0. repeat split; done.
    + left. split; [by constructor | done].
  - right. unfold len in *. simpl. split; [lia|].
    exists x.
    replace (Z.to_nat (offsetIndex offset rest (ii + 1) i' - ii))
      with (S (Z.to_nat (offsetIndex offset rest (ii + 1) i' - (ii + 1))))
      by lia.
    simpl. repeat split; done.
Qed.

(** X3. The offset loop yields -1 exactly when no release of the list
    has the name; otherwise it yields the index, inside the list, of the
    last release with the name.  The index is never past the list: the
    test for "no items after" that follows the loop cannot hold. *)
Theorem offsetIndex_last offset rels :
  let i := offsetIndex offset rels 0 (-1) in
  (i < len rels)%Z ∧
  (i = (-1)%Z ↔ Forall (λ x, release_Name x ≠ offset) rels) ∧
  (i ≠ (-1)%Z →
   (0 ≤ i)%Z ∧
   ∃ x, rels !! Z.to_nat i = Some x ∧ release_Name x = offset ∧
        Forall (λ x, release_Name x ≠ offset) (drop (S (Z.to_nat i)) rels)).
Proof.
  intros i.
  pose proof (offsetIndex_from offset rels 0 (-1)) as H.
  cbv zeta in H. fold i in H.
  destruct H as [[Hnone Hi] | [Hrange (x & Hx & Hname & Hafter)]]; [lia| |].
  - split; [unfold len; lia|]. split; [done|]. intros Hne. lia.
  - replace (i - 0)%Z with i in * by lia.
    split; [lia|]. split.
    + split; [lia|]. intros Hnone. exfalso.
      apply (proj1 (Forall_lookup _ _) Hnone _ _ Hx). done.
    + intros _. split; [lia|]. by exists x.
Qed.

(** X4. When a list request names an offset and the selection succeeds,
    the selected releases begin with a release of that name, and no
    release after it has the name: the page starts at the offset itself,
    at its last occurrence. *)
Theorem ListReleases_select_offset c req w total rels w1 :
  lreq_Offset req ≠ EmptyString →
  ListReleases_select Releases lib c req w = (Ok (total, rels, None), w1) →
  ∃ x rest,
    rels = x :: rest ∧ release_Name x = lreq_Offset req ∧
    Forall (λ y, release_Name y ≠ lreq_Offset req) rest.
Proof.
  intros Hoff H. unfold ListReleases_select in H.
  crunch H; try contradiction.
  all: match goal with
       | Hi : offsetIndex ?o ?l 0 (-1) ≠ (-1)%Z |- _ =>
           pose proof (offsetIndex_from o l 0 (-1) ltac:(lia)) as Hfrom;
           cbv zeta in Hfrom;
           destruct Hfrom as [[_ Heq] | [_ (x & Hx & Hname & Hafter)]];
           [contradiction|];
           rewrite Z.sub_0_r in Hx, Hafter
       end.
  all: injection H as _ <- _.
  all: exists x; eexists; split;
         [ by rewrite (drop_S _ _ _ Hx) | by split ].
Qed.

(** X5. A list request sends at most one response, and sending it is the
    last thing the handler does, its result being what the stream
    answered.  Before that it only looks up the store.  The count of the
    response is the number of releases it carries.  When the handler
    ends in another way, with an error of the selection or a panic,
    nothing is sent. *)
Theorem ListReleases_one_response c req w :
  let '(out, w') := ListReleases Releases lib c req w in
  ∃ d, w_calls w' = w_calls w ++ d ∧
       ((Forall (λ c, lookup_call c = true) d ∧
         out ≠ Ok None) ∨
        (∃ d0 res,
           d = d0 ++ [StreamSend res] ∧
           Forall (λ c, lookup_call c = true) d0 ∧
           out = Ok (stream_Send lib res) ∧
           lres_Count res = len (lres_Releases res))).
Proof.
  destruct (ListReleases Releases lib c req w) as [out w'] eqn:Hrun.
  unfold ListReleases in Hrun. rewrite bind_run in Hrun.
  destruct (ListReleases_select Releases lib c req w) as [sel w1] eqn:Hsel.
  destruct (within_run _ _ _ _ _ (within_ListReleases_select Releases lib c req) Hsel)
    as (_ & d & Hd & Hlook).
  destruct sel as [[[total rels] [e|]]|p].
  - injection Hrun as <- <-. exists d. split; [done|]. left. by split.
  - unfold ListReleases_page in Hrun. rewrite bind_run in Hrun.
    destruct (decide _) in Hrun.
    + rewrite bind_run in Hrun. unfold index in Hrun.
      destruct (decide _) in Hrun.
      * destruct (rels !! _) in Hrun.
        -- injection Hrun as <- <-. eexists. simpl. rewrite Hd.
           split; [by rewrite <- app_assoc|]. right. eexists _, _.
           repeat split; done.
        -- injection Hrun as <- <-. exists d. split; [done|]. left. by split.
      * injection Hrun as <- <-. exists d. split; [done|]. left. by split.
    + injection Hrun as <- <-. eexists. simpl. rewrite Hd.
      split; [by rewrite <- app_assoc|]. right. eexists _, _.
      repeat split; done.
  - injection Hrun as <- <-. exists d. split; [done|]. left. by split.
Qed.

End ListFacts.

Section FilterFacts.

(** X6. The status filter handed to the store accepts a release exactly
    when its status code is among the requested codes.  On a release
    that has no [Info] it panics, as soon as there is a code to compare
    with. *)
Theorem statusFilter_accepts codes r :
  match release_code r with
  | Some sc => statusFilter codes r = Some (bool_decide (sc ∈ codes))
  | None => statusFilter codes r = match codes with
                                   | [] => Some false
                                   | _ :: _ => None
                                   end
  end.
Proof.
  unfold release_code. destruct (release_Info r) as [i|] eqn:Hi; simpl.
  - induction codes as [|sc codes IH]; cbn [statusFilter].
    + by rewrite bool_decide_eq_false_2 by apply not_elem_of_nil.
    + rewrite Hi. destruct (decide (sc = status_Code (info_Status i))) as [->|Hne].
      * by rewrite bool_decide_eq_true_2 by (apply elem_of_cons; by left).
      * rewrite IH. f_equal. apply bool_decide_ext.
        rewrite elem_of_cons.
        split; [by right | intros [?|?]; [congruence | done]].
  - destruct codes; simpl; [done|]. by rewrite Hi.
Qed.

End FilterFacts.

(** ** Generated names *)

Section GeneratedNameFacts.
Context {St K Values : Type}.
Variable Releases : storage.Storage St.
Variable lib : Library Values.
Implicit Types w : World St K.

Lemma length_substring_le n s : String.length (String.substring 0 n s) ≤ n.
Proof.
  revert s. induction n as [|n IH]; intros [|c s]; simpl; try lia.
  specialize (IH s). lia.
Qed.

Lemma uniqName_generate_spec tries w :
  ∃ name err w' d,
    uniqName_generate Releases lib tries w = (Ok (name, err), w') ∧
    w_releases w' = w_releases w ∧
    w_calls w' = w_calls w ++ d ∧
    length d ≤ tries ∧
    Forall (λ c, ∃ n, c = StoreGet n 1 ∧ String.length n ≤ releaseNameMaxLen) d ∧
    match err with
    | None =>
        String.length name ≤ releaseNameMaxLen ∧
        (storage.Get Releases name 1 (w_releases w)).2 = Some ErrReleaseNotFound ∧
        last d = Some (StoreGet name 1)
    | Some e => name = "ERROR" ∧ e = errNoName ∧ length d = tries
    end.
Proof.
  revert w. induction tries as [|tries IH]; intros w; simpl.
  { exists "ERROR", (Some errNoName), w, []. rewrite app_nil_r.
    repeat split; try done. }
  rewrite bind_run. simpl. rewrite bind_run, Releases_Get_run. simpl.
  set (name := if decide (releaseNameMaxLen < String.length (moniker_NameSep lib (w_names w)))
               then String.substring 0 releaseNameMaxLen (moniker_NameSep lib (w_names w))
               else moniker_NameSep lib (w_names w)).
  assert (Hlen : String.length name ≤ releaseNameMaxLen).
  { unfold name. destruct (decide _); [apply length_substring_le | lia]. }
  destruct (storage.Get Releases name 1 (w_releases w)) as [rel err] eqn:Hget.
  assert (Hnext : ∀ w1, w_releases w1 = w_releases w →
            w_calls w1 = w_calls w ++ [StoreGet name 1] →
            ∃ name' err' w' d,
              uniqName_generate Releases lib tries w1 = (Ok (name', err'), w') ∧
              w_releases w' = w_releases w ∧
              w_calls w' = w_calls w ++ d ∧
              length d ≤ S tries ∧
              Forall (λ c, ∃ n, c = StoreGet n 1
                                ∧ String.length n ≤ releaseNameMaxLen) d ∧
              match err' with
              | None =>
                  String.length name' ≤ releaseNameMaxLen ∧
                  (storage.Get Releases name' 1 (w_releases w)).2
                    = Some ErrReleaseNotFound ∧
                  last d = Some (StoreGet name' 1)
              | Some e => name' = "ERROR" ∧ e = errNoName ∧ length d = S tries
              end).
  { intros w1 Hst Hcalls.
    destruct (IH w1) as (name' & err' & w' & d & Hrun & Hst' & Hc' & Hl & Hall & Hres).
    exists name', err', w', (StoreGet name 1 :: d).
    split; [done|]. split; [congruence|].
    split; [by rewrite Hc', Hcalls, <- app_assoc|].
    split; [simpl; lia|].
    split; [constructor; [by exists name | done]|].
    destruct err' as [e|].
    - destruct Hres as (-> & -> & <-). done.
    - destruct Hres as (Hn & Hg & Hlast). rewrite Hst in Hg.
      repeat split; try done.
      destruct d as [|c d]; [done|]. by rewrite last_cons, Hlast. }
  destruct err as [e|]; [destruct e|]; try (by apply Hnext).
  exists name, None, (called (StoreGet name 1)
                        (mkWorld (w_releases w) (w_kube w) (w_ticks w)
                                 (S (w_names w)) (w_calls w))),
    [StoreGet name 1].
  repeat split; try done.
  - simpl. lia.
  - constructor; [by exists name | done].
  - by rewrite Hget.
Qed.

(** X7. With no name requested, [uniqName] never panics and leaves the
    store as it is.  It looks up at most five generated names, each of at
    most 14 characters, at version 1.  When it grants a name, that name
    has at most 14 characters, the store answered not-found for it, and
    that lookup was the last one.  Otherwise all five lookups found the
    name taken (or failed) and the result is the name ERROR with the
    no-name error. *)
Theorem uniqName_generated reuse w :
  ∃ name err w' d,
    uniqName Releases lib EmptyString reuse w = (Ok (name, err), w') ∧
    w_releases w' = w_releases w ∧
    w_calls w' = w_calls w ++ d ∧
    length d ≤ 5 ∧
    Forall (λ c, ∃ n, c = StoreGet n 1 ∧ String.length n ≤ 14) d ∧
    match err with
    | None =>
        String.length name ≤ 14 ∧
        (storage.Get Releases name 1 (w_releases w)).2 = Some ErrReleaseNotFound ∧
        last d = Some (StoreGet name 1)
    | Some e => name = "ERROR" ∧ e = errNoName ∧ length d = 5
    end.
Proof.
  unfold uniqName. destruct (decide (EmptyString ≠ EmptyString)); [done|].
  apply uniqName_generate_spec.
Qed.

End GeneratedNameFacts.

(** ** Rollback, and dry runs of upgrade and rollback *)

Section RollbackRunFacts.
Context {St K Values : Type}.
Variable Releases : storage.Storage St.
Variable KubeClient : kube.Client K.
Variable lib : Library Values.
Implicit Types w : World St K.

Lemma within_prepareRollback req :
  Within lookup_call (prepareRollback Releases lib req : M St K _).
Proof.
  pose proof (within_Releases_Deployed Releases lookup_call (K:=K)).
  pose proof (within_Releases_Get Releases lookup_call (K:=K)).
  pose proof (within_Now lib lookup_call (St:=St) (K:=K)).
  unfold prepareRollback. within_auto.
Qed.

Lemma prepareRollback_Ok req w current target w1 :
  prepareRollback Releases lib req w = (Ok (Some (current, target), None), w1) →
  ∃ previous,
    storage.Deployed Releases (rreq_Name req) (w_releases w)
      = (Some current, None) ∧
    storage.Get Releases (rreq_Name req)
                (int32_sub (release_Version current) 1) (w_releases w)
      = (Some previous, None) ∧
    release_Name target = rreq_Name req ∧
    release_Namespace target = release_Namespace current ∧
    release_Version target = int32_add (release_Version current) 1 ∧
    release_code target = Some Status_UNKNOWN ∧
    release_FirstDeployed target = release_FirstDeployed current ∧
    release_Chart target = release_Chart previous ∧
    release_Config target = release_Config previous ∧
    release_Manifest target = release_Manifest previous ∧
    release_Hooks target = release_Hooks previous.
Proof.
  intros H. unfold prepareRollback in H. crunch H.
  repeat match goal with
         | E : deref _ _ = (Ok _, _) |- _ => apply deref_Ok in E as [? ?]
         | E : Releases_Deployed _ _ _ = _ |- _ =>
             rewrite Releases_Deployed_run in E; injection E as ? ?
         | E : Releases_Get _ _ _ _ = _ |- _ =>
             rewrite Releases_Get_run in E; injection E as ? ?
         | E : Now _ _ = _ |- _ => unfold Now in E; rewrite bind_run in E;
                                   simpl in E; injection E as ? ?
         end.
  injection H as <- <- _. subst. simpl in *.
  eexists. split; [eassumption|]. split; [eassumption|].
  unfold release_code, release_FirstDeployed. simpl.
  match goal with E : release_Info _ = Some ?i |- context [info_FirstDeployed ?i] =>
    rewrite E end.
  repeat split; done.
Qed.

Lemma performRollback_Ok current target req w res w' :
  rreq_DryRun req = false →
  performRollback Releases KubeClient lib current target req w
    = (Ok (Some res, None), w') →
  ∃ superseded hs wu,
    coded Status_SUPERSEDED current = Some superseded ∧
    coded Status_DEPLOYED (set_release_Hooks hs target) = Some (rres_Release res) ∧
    storage.Update Releases superseded (w_releases wu) = (w_releases w', None) ∧
    w' = with_releases (w_releases w') (called (StoreUpdate superseded) wu) ∧
    ∃ d, w_calls wu = w_calls w ++ d.
Proof.
  intros Hdry H. unfold performRollback in H. rewrite Hdry in H.
  crunch H.
  repeat match goal with
         | E : setCode _ _ _ = _ |- _ => rewrite setCode_run in E
         | E : Releases_Update _ _ _ = _ |- _ => rewrite Releases_Update_run in E
         end.
  match goal with
  | E : hookPhase _ _ _ _ preRollback _ = _ |- _ => rename E into Hpre end.
  match goal with
  | E : performKubeUpdate _ _ _ _ = _ |- _ => rename E into Hkube end.
  match goal with
  | E : hookPhase _ _ _ _ postRollback _ = _ |- _ => rename E into Hpost end.
  match goal with
  | E : match coded Status_SUPERSEDED _ with _ => _ end = _ |- _ =>
      rename E into Hsup end.
  match goal with
  | E : match coded Status_DEPLOYED _ with _ => _ end = _ |- _ =>
      rename E into Hdep end.
  match goal with
  | E : (Ok (storage.Update _ _ _).2, _) = _ |- _ => rename E into Hupd end.
  destruct (coded Status_SUPERSEDED current) as [superseded|] eqn:Hs; [|done].
  injection Hsup as <- <-.
  injection Hupd as Hupd <-.
  destruct (coded Status_DEPLOYED _) as [deployed|] eqn:Hd in Hdep; [|done].
  injection Hdep as <- <-. injection H as <- <-.
  destruct (hookPhase_Ok KubeClient lib _ _ _ _ _ _ _ Hpre) as [Hr _].
  destruct (hookPhase_Ok KubeClient lib _ _ _ _ _ _ _ Hpost) as [Hr2 _].
  destruct (within_run _ _ _ _ _ (within_hookPhase KubeClient lib _ _ _) Hpre)
    as (_ & d1 & Hc1 & _).
  destruct (within_run _ _ _ _ _ (within_performKubeUpdate KubeClient _ _) Hkube)
    as (_ & d2 & Hc2 & _).
  destruct (within_run _ _ _ _ _ (within_hookPhase KubeClient lib _ _ _) Hpost)
    as (_ & d3 & Hc3 & _).
  match type of Hpost with _ = (Ok (?r, _), ?wu) =>
    exists superseded, (release_Hooks r), wu end.
  repeat split.
  - simpl. rewrite <- Hd. f_equal. rewrite Hr2 at 2. rewrite Hr. by destruct target.
  - simpl. destruct (storage.Update _ _ _). simpl in *. by subst.
  - exists (d1 ++ d2 ++ d3). rewrite Hc3, Hc2, Hc1. by rewrite !app_assoc.
Qed.

(** X8. A live rollback that succeeds found the deployed release of the
    name and the release one version below it.  Its last two calls are
    the store's [Update] of the deployed release with the status
    SUPERSEDED and the store's [Create] of the new release, and the store
    reported no error for either.  The new release has the status
    DEPLOYED, the deployed version plus one (never the lower number
    again), the namespace and first deployment time of the deployed
    release, and the chart, config and manifest of the release below
    it. *)
Theorem RollbackRelease_supersedes c req w res w' :
  rreq_DryRun req = false →
  RollbackRelease Releases KubeClient lib c req w = (Ok (Some res, None), w') →
  ∃ current previous superseded st0 st1 d,
    storage.Deployed Releases (rreq_Name req) (w_releases w)
      = (Some current, None) ∧
    storage.Get Releases (rreq_Name req)
                (int32_sub (release_Version current) 1) (w_releases w)
      = (Some previous, None) ∧
    coded Status_SUPERSEDED current = Some superseded ∧
    storage.Update Releases superseded st0 = (st1, None) ∧
    storage.Create Releases (rres_Release res) st1 = (w_releases w', None) ∧
    w_calls w' =
      w_calls w ++ d ++ [StoreUpdate superseded; StoreCreate (rres_Release res)] ∧
    release_code (rres_Release res) = Some Status_DEPLOYED ∧
    release_Version (rres_Release res)
      = int32_add (release_Version current) 1 ∧
    ((int32_min ≤ release_Version current < int32_max)%Z →
     release_Version (rres_Release res) = (release_Version current + 1)%Z) ∧
    release_Namespace (rres_Release res) = release_Namespace current ∧
    release_FirstDeployed (rres_Release res) = release_FirstDeployed current ∧
    release_Chart (rres_Release res) = release_Chart previous ∧
    release_Config (rres_Release res) = release_Config previous ∧
    release_Manifest (rres_Release res) = release_Manifest previous.
Proof.
  intros Hdry H. unfold RollbackRelease in H. rewrite Hdry in H.
  change (negb false) with true in H. crunch H.
  match goal with
  | E : checkClientVersion _ _ _ = _ |- _ =>
      apply checkClientVersion_world in E; subst end.
  match goal with
  | E : prepareRollback _ _ _ _ = _ |- _ => rename E into Hprep end.
  match goal with
  | E : performRollback _ _ _ _ _ _ _ = _ |- _ => rename E into Hperf end.
  repeat match goal with
         | E : deref _ _ = (Ok _, _) |- _ => apply deref_Ok in E as [? ?]
         | E : Releases_Create _ _ _ = _ |- _ => rewrite Releases_Create_run in E
         end.
  subst.
  match goal with
  | E : (Ok (storage.Create _ _ _).2, _) = _ |- _ => injection E as Hcreate <- end.
  injection H as <- <-.
  destruct (within_run _ _ _ _ _ (within_prepareRollback req) Hprep)
    as (_ & dp & Hdp & _).
  apply prepareRollback_Ok in Hprep
    as (previous & Hdep & Hget & Hname & Hns & Hver & Hcode & Hfirst
        & Hchart & Hconfig & Hman & _).
  apply performRollback_Ok in Hperf
    as (superseded & hs & wu & Hsup & Hnew & Hupd & Hw & d & Hd); [|done].
  assert (Hfields :
    release_Version (rres_Release a0) = release_Version r0 ∧
    release_Namespace (rres_Release a0) = release_Namespace r0 ∧
    release_FirstDeployed (rres_Release a0) = release_FirstDeployed r0 ∧
    release_Chart (rres_Release a0) = release_Chart r0 ∧
    release_Config (rres_Release a0) = release_Config r0 ∧
    release_Manifest (rres_Release a0) = release_Manifest r0).
  { unfold coded in Hnew. unfold release_FirstDeployed.
    destruct (release_Info (set_release_Hooks hs r0)) as [i|] eqn:Hi; [|done].
    injection Hnew as <-. simpl in *. by rewrite Hi. }
  destruct Hfields as (Hv' & Hn' & Hf' & Hc' & Hg' & Hm').
  match type of Hupd with _ = (w_releases ?w2, _) => set (wp := w2) in * end.
  exists r, previous, superseded, (w_releases wu), (w_releases wp), (dp ++ d).
  split; [done|]. split; [done|]. split; [done|]. split; [done|].
  split.
  { simpl. destruct (storage.Create _ _ _). simpl in *. by subst. }
  split.
  { simpl. rewrite Hw. simpl. rewrite Hd, Hdp. by rewrite <- !app_assoc. }
  split; [by eapply coded_code|].
  split; [congruence|].
  split.
  { intros Hrange. rewrite Hv', Hver. by apply int32_add_1. }
  repeat split; congruence.
Qed.

(** X9. When the apply steps of a live rollback fail, in the pre-rollback
    hook phase, in the update of the orchestrator or in the post-rollback
    hook phase, the handler returns that error with no release, and no
    call that writes to the store (no Create, no Update) was made: the
    deployed release is not marked SUPERSEDED and no new version is
    recorded. *)
Theorem RollbackRelease_apply_failure c req w w1 current target e w' :
  rreq_DryRun req = false →
  checkClientVersion lib c w = (Ok true, w) →
  prepareRollback Releases lib req w = (Ok (Some (current, target), None), w1) →
  RollbackApplyFails KubeClient lib current target req w1 e w' →
  RollbackRelease Releases KubeClient lib c req w = (Ok (None, Some e), w') ∧
  ∃ d, w_calls w' = w_calls w ++ d ∧
       Forall (λ c, store_write_call c = false) d.
Proof.
  intros Hdry Hcheck Hprep Hfail. split.
  - unfold RollbackRelease.
    rewrite (bind_Ok _ _ _ _ _ Hcheck). simpl.
    rewrite (bind_Ok _ _ _ _ _ Hprep). simpl.
    rewrite bind_run. simpl. rewrite bind_run.
    unfold performRollback. rewrite Hdry.
    destruct Hfail as [r e w2 Hpre | r w2 e w3 Hpre Hupd
                       | r w2 w3 r' e w4 Hpre Hupd Hpost].
    + rewrite (bind_Ok _ _ _ _ _ Hpre). reflexivity.
    + rewrite (bind_Ok _ _ _ _ _ Hpre). simpl.
      rewrite (bind_Ok _ _ _ _ _ Hupd). reflexivity.
    + rewrite (bind_Ok _ _ _ _ _ Hpre). simpl.
      rewrite (bind_Ok _ _ _ _ _ Hupd). simpl.
      rewrite (bind_Ok _ _ _ _ _ Hpost). reflexivity.
  - assert (Hquiet : ∀ c, lookup_call c = true ∨ apply_call c = true →
                          store_write_call c = false).
    { intros [] [?|?]; done. }
    destruct (within_run _ _ _ _ _ (within_prepareRollback req) Hprep)
      as (_ & d1 & Hc1 & Hd1).
    assert (Hd1' : Forall (λ c, store_write_call c = false) d1).
    { eapply Forall_impl; [exact Hd1|]. intros; apply Hquiet; by left. }
    assert (Happly : ∀ d, Forall (λ c, apply_call c = true) d →
                          Forall (λ c, store_write_call c = false) d).
    { intros d Hd. eapply Forall_impl; [exact Hd|]. intros; apply Hquiet; by right. }
    destruct Hfail as [r e w2 Hpre | r w2 e w3 Hpre Hupd
                       | r w2 w3 r' e w4 Hpre Hupd Hpost].
    + destruct (within_run _ _ _ _ _ (within_hookPhase KubeClient lib _ _ _) Hpre) as (_ & d2 & Hc2 & Hd2).
      exists (d1 ++ d2).
      rewrite Hc2, Hc1, app_assoc. split; [done|].
      apply Forall_app; auto.
    + destruct (within_run _ _ _ _ _ (within_hookPhase KubeClient lib _ _ _) Hpre) as (_ & d2 & Hc2 & Hd2).
      destruct (within_run _ _ _ _ _ (within_performKubeUpdate KubeClient _ _) Hupd) as (_ & d3 & Hc3 & Hd3).
      exists (d1 ++ d2 ++ d3).
      rewrite Hc3, Hc2, Hc1, !app_assoc. split; [done|].
      rewrite <- app_assoc. repeat (apply Forall_app; split); auto.
    + destruct (within_run _ _ _ _ _ (within_hookPhase KubeClient lib _ _ _) Hpre) as (_ & d2 & Hc2 & Hd2).
      destruct (within_run _ _ _ _ _ (within_performKubeUpdate KubeClient _ _) Hupd) as (_ & d3 & Hc3 & Hd3).
      destruct (within_run _ _ _ _ _ (within_hookPhase KubeClient lib _ _ _) Hpost) as (_ & d4 & Hc4 & Hd4).
      exists (d1 ++ d2 ++ d3 ++ d4).
      rewrite Hc4, Hc3, Hc2, Hc1, !app_assoc. split; [done|].
      rewrite <- !app_assoc. repeat (apply Forall_app; split); auto.
Qed.

End RollbackRunFacts.

Section DryRunFacts.
Context {St K Values : Type}.
Variable Releases : storage.Storage St.
Variable KubeClient : kube.Client K.
Variable lib : Library Values.
Implicit Types w : World St K.

Lemma prepareUpdate_namespace req w current updated w1 :
  prepareUpdate Releases KubeClient lib req w
    = (Ok (Some (current, updated), None), w1) →
  release_Namespace updated = release_Namespace current ∧
  release_Chart updated = ureq_Chart req ∧
  release_Config updated = ureq_Values req.
Proof.
  intros H. unfold prepareUpdate in H. crunch H.
  repeat match goal with
         | E : deref _ _ = (Ok _, _) |- _ => apply deref_Ok in E as [? ?]
         end.
  injection H as <- <- _. subst. simpl. done.
Qed.

Lemma within_UpdateRelease_dry_run c req :
  ureq_DryRun req = true →
  Within lookup_call (UpdateRelease Releases KubeClient lib c req).
Proof.
  intros Hdry.
  pose proof (within_checkClientVersion lib lookup_call (St:=St) (K:=K)).
  pose proof (within_prepareUpdate Releases KubeClient lib).
  unfold UpdateRelease, performUpdate. rewrite Hdry. simpl. within_auto.
Qed.

(** X10. An upgrade with dry-run set leaves the store as it is and makes
    only lookups in the store and discovery requests to the
    orchestrator: no hook runs, nothing is updated in the orchestrator,
    nothing is written to the store.  When the client is compatible and
    the preparation succeeds, the handler returns the prepared release as
    it is: status UNKNOWN, the deployed version plus one, the namespace
    and first deployment time of the deployed release, and the chart and
    values of the request. *)
Theorem UpdateRelease_dry_run c req w :
  ureq_DryRun req = true →
  let '(out, w') := UpdateRelease Releases KubeClient lib c req w in
  w_releases w' = w_releases w ∧
  (∃ d, w_calls w' = w_calls w ++ d ∧
        Forall (λ c, lookup_call c = true) d) ∧
  (∀ current updated w1,
     checkClientVersion lib c w = (Ok true, w) →
     prepareUpdate Releases KubeClient lib req w
       = (Ok (Some (current, updated), None), w1) →
     out = Ok (Some (mkUpdateReleaseResponse updated), None) ∧ w' = w1 ∧
     release_code updated = Some Status_UNKNOWN ∧
     release_Version updated = int32_add (release_Version current) 1 ∧
     release_Namespace updated = release_Namespace current ∧
     release_FirstDeployed updated = release_FirstDeployed current ∧
     release_Chart updated = ureq_Chart req ∧
     release_Config updated = ureq_Values req).
Proof.
  intros Hdry.
  destruct (UpdateRelease Releases KubeClient lib c req w) as [out w'] eqn:Hrun.
  destruct (within_run _ _ _ _ _ (within_UpdateRelease_dry_run c req Hdry) Hrun)
    as (Hst & d & Hc & Hd).
  split; [done|]. split; [by exists d|].
  intros current updated w1 Hcheck Hprep. unfold UpdateRelease in Hrun.
  rewrite (bind_Ok _ _ _ _ _ Hcheck) in Hrun. simpl in Hrun.
  rewrite (bind_Ok _ _ _ _ _ Hprep) in Hrun. simpl in Hrun.
  rewrite bind_run in Hrun. simpl in Hrun.
  unfold performUpdate in Hrun. rewrite Hdry in Hrun.
  rewrite bind_run in Hrun. simpl in Hrun.
  injection Hrun as <- <-.
  destruct (prepareUpdate_Ok Releases KubeClient lib _ _ _ _ _ Hprep) as (_ & _ & _ & Hv & Hcode & Hf).
  destruct (prepareUpdate_namespace _ _ _ _ _ Hprep) as (Hns & Hch & Hcf).
  repeat split; done.
Qed.

Lemma within_RollbackRelease_dry_run c req :
  rreq_DryRun req = true →
  Within lookup_call (RollbackRelease Releases KubeClient lib c req).
Proof.
  intros Hdry.
  pose proof (within_checkClientVersion lib lookup_call (St:=St) (K:=K)).
  pose proof (within_prepareRollback Releases lib (K:=K)).
  unfold RollbackRelease, performRollback. rewrite Hdry. simpl. within_auto.
Qed.

(** X11. A rollback with dry-run set leaves the store as it is and makes
    only lookups in the store: no hook runs, nothing is updated in the
    orchestrator, nothing is written to the store.  When the client is
    compatible and the preparation succeeds, the handler returns the
    prepared release as it is, with the status UNKNOWN. *)
Theorem RollbackRelease_dry_run c req w :
  rreq_DryRun req = true →
  let '(out, w') := RollbackRelease Releases KubeClient lib c req w in
  w_releases w' = w_releases w ∧
  (∃ d, w_calls w' = w_calls w ++ d ∧
        Forall (λ c, lookup_call c = true) d) ∧
  (∀ current target w1,
     checkClientVersion lib c w = (Ok true, w) →
     prepareRollback Releases lib req w
       = (Ok (Some (current, target), None), w1) →
     out = Ok (Some (mkRollbackReleaseResponse target), None) ∧ w' = w1 ∧
     release_code target = Some Status_UNKNOWN).
Proof.
  intros Hdry.
  destruct (RollbackRelease Releases KubeClient lib c req w) as [out w'] eqn:Hrun.
  destruct (within_run _ _ _ _ _ (within_RollbackRelease_dry_run c req Hdry) Hrun)
    as (Hst & d & Hc & Hd).
  split; [done|]. split; [by exists d|].
  intros current target w1 Hcheck Hprep. unfold RollbackRelease in Hrun.
  rewrite (bind_Ok _ _ _ _ _ Hcheck) in Hrun. simpl in Hrun.
  rewrite (bind_Ok _ _ _ _ _ Hprep) in Hrun. simpl in Hrun.
  rewrite bind_run in Hrun. simpl in Hrun.
  unfold performRollback in Hrun. rewrite Hdry in Hrun.
  rewrite bind_run in Hrun. simpl in Hrun.
  injection Hrun as <- <-.
  destruct (prepareRollback_Ok Releases lib _ _ _ _ _ Hprep)
    as (previous & _ & _ & _ & _ & _ & Hcode & _).
  repeat split; done.
Qed.

End DryRunFacts.

(** ** Install: what is constructed, what is recorded *)

Section InstallRunFacts.
Context {St K Values : Type}.
Variable Releases : storage.Storage St.
Variable KubeClient : kube.Client K.
Variable lib : Library Values.
Implicit Types w : World St K.

(** X12. When the pre-install hooks, the creation of the manifest and the
    post-install hooks of a live install all succeed, the release is
    marked DEPLOYED and handed to the store once, to [Update] when the
    name is reused and to [Create] otherwise, and the handler reports
    success whatever the store answers: a failure to record the release
    is not returned to the caller. *)
Theorem performRelease_success r req w r1 w1 w2 r3 w3 deployed :
  ireq_DryRun req = false →
  hookPhase KubeClient lib (ireq_DisableHooks req) r preInstall w
    = (Ok (r1, None), w1) →
  kubeCli_Create KubeClient (release_Namespace r1) (release_Manifest r1) w1
    = (Ok None, w2) →
  hookPhase KubeClient lib (ireq_DisableHooks req) r1 postInstall w2
    = (Ok (r3, None), w3) →
  coded Status_DEPLOYED r3 = Some deployed →
  performRelease Releases KubeClient lib r req w
  = (Ok (mkInstallReleaseResponse deployed, None),
     if ireq_ReuseName req
     then with_releases (storage.Update Releases deployed (w_releases w3)).1
                        (called (StoreUpdate deployed) w3)
     else with_releases (storage.Create Releases deployed (w_releases w3)).1
                        (called (StoreCreate deployed) w3)).
Proof.
  intros Hdry Hpre Hcreate Hpost Hdeployed.
  unfold performRelease. rewrite Hdry.
  rewrite (bind_Ok _ _ _ _ _ Hpre). simpl.
  rewrite (bind_Ok _ _ _ _ _ Hcreate). simpl.
  rewrite (bind_Ok _ _ _ _ _ Hpost). simpl.
  rewrite bind_run, setCode_run, Hdeployed, bind_run.
  by rewrite recordRelease_run.
Qed.

(** X13. When the install handler returns no release, it returns an
    error, the store is as it was, and only lookups in the store and
    discovery requests were made: nothing was written, no hook was
    submitted and no manifest was created. *)
Theorem InstallRelease_no_release c req w err w' :
  InstallRelease Releases KubeClient lib c req w = (Ok (None, err), w') →
  is_Some err ∧
  w_releases w' = w_releases w ∧
  ∃ d, w_calls w' = w_calls w ++ d ∧ Forall (λ c, lookup_call c = true) d.
Proof.
  intros H. unfold InstallRelease in H. crunch H.
  - match goal with
    | E : checkClientVersion _ _ _ = _ |- _ =>
        apply checkClientVersion_world in E; subst end.
    injection H as <- <-. split; [by eexists|]. split; [done|].
    exists []. by rewrite app_nil_r.
  - match goal with
    | E : checkClientVersion _ _ _ = _ |- _ =>
        apply checkClientVersion_world in E; subst end.
    match goal with
    | E : prepareRelease _ _ _ _ _ = _ |- _ =>
        destruct (within_run _ _ _ _ _
                    (within_prepareRelease Releases KubeClient lib req) E)
          as (Hst & d & Hc & Hd) end.
    injection H as <- <-. split; [by eexists|]. split; [done|]. by exists d.
Qed.

Lemma uniqName_granted start reuse w name w' :
  uniqName Releases lib start reuse w = (Ok (name, None), w') →
  String.length name ≤ releaseNameMaxLen ∧
  (start ≠ EmptyString → name = start).
Proof.
  intros H. destruct (decide (start = EmptyString)) as [->|Hne].
  - unfold uniqName in H. destruct (decide (EmptyString ≠ EmptyString)); [done|].
    destruct (uniqName_generate_spec Releases lib 5 w)
      as (name' & err & w'' & d & Hrun & _ & _ & _ & _ & Hres).
    rewrite Hrun in H. injection H as -> -> ->.
    destruct Hres as (Hlen & _). by split.
  - unfold uniqName in H. destruct (decide (start ≠ EmptyString)); [|done].
    destruct (decide (releaseNameMaxLen < String.length start)) as [|Hlen];
      [discriminate|].
    assert (String.length start ≤ releaseNameMaxLen) by lia.
    crunch H; injection H as <- _; done.
Qed.

(** X14. Every release that the preparation of an install builds has
    version 1 and status UNKNOWN, a name of at most 14 characters, which
    is the requested name when one was given, the namespace, chart and
    configuration of the request, and one reading of the clock as both
    its first and its last deployment time, with no deletion time. *)
Theorem prepareRelease_shape req w rel w' :
  prepareRelease Releases KubeClient lib req w = (Ok (Some rel, None), w') →
  release_Version rel = 1%Z ∧
  release_code rel = Some Status_UNKNOWN ∧
  String.length (release_Name rel) ≤ 14 ∧
  (ireq_Name req ≠ EmptyString → release_Name rel = ireq_Name req) ∧
  release_Namespace rel = ireq_Namespace req ∧
  release_Chart rel = ireq_Chart req ∧
  is_Some (release_Chart rel) ∧
  release_Config rel = ireq_Values req ∧
  ∃ info n,
    release_Info rel = Some info ∧
    info_FirstDeployed info = Some (timeconv_Now lib n) ∧
    info_LastDeployed info = Some (timeconv_Now lib n) ∧
    info_Deleted info = None.
Proof.
  intros H. unfold prepareRelease in H.
  destruct (ireq_Chart req) as [chart|] eqn:Hchart; [|discriminate].
  apply bind_Ok_inv in H as ([name err] & w1 & Hname & H).
  destruct err as [e|]; [discriminate|].
  apply uniqName_granted in Hname as (Hlen & Hreq).
  apply bind_Ok_inv in H as (ts & w2 & Hnow & H).
  unfold Now in Hnow. rewrite bind_run in Hnow. simpl in Hnow.
  injection Hnow as <- _.
  destruct (chartutil_ToRenderValues _ _ _ _) as [values [e|]]; [discriminate|].
  apply bind_Ok_inv in H as ([[[hooks doc] notes] err] & w3 & _ & H).
  destruct err as [e|]; [discriminate|].
  injection H as <- _. simpl.
  repeat split; try done.
  - unfold release_code. simpl. by rewrite withNotes_code.
  - eexists _, (w_ticks w1). split; [reflexivity|].
    unfold withNotes. by destruct (decide _).
Qed.

(** X15. A live install with hooks disabled, of a release that has its
    [Info], makes exactly two calls: the creation of the manifest in the
    release's namespace, then one call that records the release, [Update]
    when the name is reused and [Create] otherwise.  The recorded release
    is DEPLOYED and no error is returned when the creation succeeded; it
    is FAILED and an error is returned when the creation failed. *)
Theorem performRelease_hooks_disabled r req w :
  ireq_DryRun req = false →
  ireq_DisableHooks req = true →
  is_Some (release_Info r) →
  ∃ r' err w',
    performRelease Releases KubeClient lib r req w
      = (Ok (mkInstallReleaseResponse r', err), w') ∧
    w_calls w' = w_calls w ++
      [KubeCreate (release_Namespace r) (release_Manifest r);
       if ireq_ReuseName req then StoreUpdate r' else StoreCreate r'] ∧
    match (kube.Create KubeClient (release_Namespace r) (release_Manifest r)
             (w_kube w)).2 with
    | None => coded Status_DEPLOYED r = Some r' ∧ err = None
    | Some _ => coded Status_FAILED r = Some r' ∧ is_Some err
    end.
Proof.
  intros Hdry Hhooks [info Hinfo].
  assert (Hcoded : ∀ c, coded c r = Some
            (set_release_Info
               (Some (set_info_Status (set_status_Code c (info_Status info)) info))
               r)).
  { intros c. unfold coded. by rewrite Hinfo. }
  unfold performRelease, hookPhase. rewrite Hdry, Hhooks. simpl.
  rewrite bind_run, ret_run. simpl.
  rewrite bind_run, kubeCli_Create_run.
  destruct (kube.Create KubeClient _ _ (w_kube w)) as [k [e|]]; simpl.
  - rewrite bind_run, setCode_run, Hcoded.
    rewrite bind_run, recordRelease_run.
    eexists _, _, _. split; [reflexivity|].
    split; [|split; [reflexivity | by eexists]].
    destruct (ireq_ReuseName req); simpl; by rewrite <- app_assoc.
  - rewrite bind_run, ret_run. simpl.
    rewrite bind_run, setCode_run, Hcoded.
    rewrite bind_run, recordRelease_run.
    eexists _, _, _. split; [reflexivity|].
    split; [|split; [reflexivity | done]].
    destruct (ireq_ReuseName req); simpl; by rewrite <- app_assoc.
Qed.

End InstallRunFacts.

(** ** Rendering: notes, files handed to the sorter, results on failure *)

Section RenderFacts.
Context {St K Values : Type}.
Variable KubeClient : kube.Client K.
Variable lib : Library Values.
Implicit Types w : World St K.

Lemma notes_fold (files : gmap string string) :
  let notes :=
    map_fold (λ k v notes, if strings_HasSuffix k notesFileSuffix then v else notes)
             EmptyString files in
  (notes = EmptyString ∧
   ∀ k v, files !! k = Some v → strings_HasSuffix k notesFileSuffix = false) ∨
  (∃ k, files !! k = Some notes ∧ strings_HasSuffix k notesFileSuffix = true).
Proof.
  apply (map_fold_weak_ind
           (λ notes (m : gmap string string),
              (notes = EmptyString ∧
               ∀ k v, m !! k = Some v → strings_HasSuffix k notesFileSuffix = false) ∨
              (∃ k, m !! k = Some notes ∧ strings_HasSuffix k notesFileSuffix = true))).
  - left. split; [done|]. intros k v. by rewrite lookup_empty.
  - intros i x m r Hi IH.
    destruct (strings_HasSuffix i notesFileSuffix) eqn:Hsuf.
    + right. exists i. by rewrite lookup_insert_eq.
    + destruct IH as [[-> IH]|(k & Hk & Hsufk)].
      * left. split; [done|]. intros k v.
        destruct (decide (k = i)) as [->|Hne]; [done|].
        rewrite lookup_insert_ne by done. apply IH.
      * right. exists k. split; [|done].
        rewrite lookup_insert_ne; [done|]. intros ->. congruence.
Qed.

Lemma kubeCli_APIClient_run w :
  kubeCli_APIClient KubeClient w =
  (Ok (kube.APIClient KubeClient (w_kube w)).2,
   with_kube (kube.APIClient KubeClient (w_kube w)).1 (called KubeAPIClient w)).
Proof.
  unfold kubeCli_APIClient. rewrite bind_run. simpl. unfold kube_call. simpl.
  by destruct (kube.APIClient KubeClient (w_kube w)).
Qed.

Lemma kubeCli_ServerGroups_run w :
  kubeCli_ServerGroups KubeClient w =
  (Ok (kube.ServerGroups KubeClient (w_kube w)).2,
   with_kube (kube.ServerGroups KubeClient (w_kube w)).1
             (called KubeServerGroups w)).
Proof.
  unfold kubeCli_ServerGroups. rewrite bind_run. simpl. unfold kube_call. simpl.
  by destruct (kube.ServerGroups KubeClient (w_kube w)).
Qed.

Lemma getVersionSet_returns w :
  ∃ vs err w1, getVersionSet KubeClient w = (Ok (vs, err), w1).
Proof.
  unfold getVersionSet. rewrite bind_run, kubeCli_APIClient_run.
  destruct (kube.APIClient KubeClient (w_kube w)) as [k [e|]]; simpl;
    [by eexists _, _, _|].
  rewrite bind_run, kubeCli_ServerGroups_run. simpl.
  destruct (kube.ServerGroups KubeClient k) as [k' [[groups|] [e|]]]; simpl;
    by eexists _, _, _.
Qed.

Lemma engine_run ch md w :
  chart_Metadata ch = Some md →
  ∃ renderer, engine lib ch w = (Ok renderer, w).
Proof.
  intros Hmd. unfold engine. rewrite bind_run, Hmd. simpl.
  destruct (decide _); [destruct (EngineYard_Get _ _)|]; by eexists.
Qed.

(** X16. A chart without metadata makes the rendering of its resources
    panic on a nil dereference, before any call.  For a chart with its
    metadata the rendering returns.  When it succeeds, the sorter was
    given the rendered files less those whose path ends in NOTES.txt,
    each other file as it was rendered; the manifest document is the
    document of the manifests the sorter gave back, the hooks are the
    sorter's; and the notes are the content of a rendered file whose path
    ends in NOTES.txt, or empty when there is no such file.  When it
    fails, it returns no hooks, an empty document and empty notes next to
    the error. *)
Theorem renderResources_result ch values w :
  match chart_Metadata ch with
  | None =>
      renderResources KubeClient lib ch values w = (Panicked NilDereference, w)
  | Some _ =>
      ∃ hooks doc notes err w',
        renderResources KubeClient lib ch values w
          = (Ok (hooks, doc, notes, err), w') ∧
        match err with
        | Some _ => hooks = [] ∧ doc = EmptyString ∧ notes = EmptyString
        | None =>
            ∃ renderer files vs manifests,
              engine lib ch w = (Ok renderer, w) ∧
              renderer ch values = (files, None) ∧
              getVersionSet KubeClient w = (Ok (vs, None), w') ∧
              sortManifests lib (sortedFiles files) vs InstallOrder
                = (hooks, manifests, None) ∧
              (∀ k, sortedFiles files !! k =
                    if strings_HasSuffix k notesFileSuffix then None
                    else files !! k) ∧
              doc = manifestDoc manifests ∧
              ((notes = EmptyString ∧
                ∀ k v, files !! k = Some v →
                       strings_HasSuffix k notesFileSuffix = false) ∨
               (∃ k, files !! k = Some notes ∧
                     strings_HasSuffix k notesFileSuffix = true))
        end
  end.
Proof.
  destruct (chart_Metadata ch) as [md|] eqn:Hmd.
  2:{ unfold renderResources, engine. by rewrite !bind_run, Hmd. }
  destruct (engine_run ch md w Hmd) as (renderer & Hengine).
  unfold renderResources. rewrite (bind_Ok _ _ _ _ _ Hengine).
  destruct (renderer ch values) as [files [e|]] eqn:Hrender.
  { by eexists _, _, _, _, _. }
  rewrite bind_run.
  destruct (getVersionSet_returns w) as (vs & [e|] & w1 & Hvs); rewrite Hvs; simpl.
  { by eexists _, _, _, _, _. }
  fold (sortedFiles files).
  destruct (sortManifests lib (sortedFiles files) vs InstallOrder)
    as [[hooks manifests] [e|]] eqn:Hsort.
  { by eexists _, _, _, _, _. }
  eexists _, _, _, _, _. split; [reflexivity|].
  exists renderer, files, vs, manifests. repeat split; try done.
  - intros k. unfold sortedFiles.
    destruct (strings_HasSuffix k notesFileSuffix) eqn:Hsuf.
    + apply map_lookup_filter_None. right. intros v _. simpl. congruence.
    + destruct (files !! k) as [v|] eqn:Hk.
      * by apply map_lookup_filter_Some.
      * apply map_lookup_filter_None. by left.
  - apply notes_fold.
Qed.

End RenderFacts.

(** ** Status and content queries *)

Section StatusFacts.
Context {St K Values : Type}.
Variable Releases : storage.Storage St.
Variable KubeClient : kube.Client K.
Variable lib : Library Values.
Implicit Types w : World St K.

Lemma Releases_written_run r w :
  (Releases_written Releases r : M St K _) w
  = (Ok tt, with_releases (storage.Written Releases r (w_releases w)) w).
Proof. reflexivity. Qed.

(** X17. For a status request on a release whose stored status is
    neither DELETED nor FAILED, the answer of the orchestrator's [Get] on
    the stored manifest decides: its error is returned with no response
    and the store is as it was; without an error the response carries the
    stored info with the resources the orchestrator reported, and the
    namespace, and the resources have been written through the pointer
    the store handed out. *)
Theorem GetReleaseStatus_live c req w rel info :
  checkClientVersion lib c w = (Ok true, w) →
  sreq_Name req ≠ EmptyString →
  (statusLookup Releases req (w_releases w)).2 = (Some rel, None) →
  release_Info rel = Some info →
  is_Some (release_Chart rel) →
  status_Code (info_Status info) ≠ Status_DELETED →
  status_Code (info_Status info) ≠ Status_FAILED →
  let ns := release_Namespace rel in
  let manifest := release_Manifest rel in
  let answer := kube.Get KubeClient ns manifest (w_kube w) in
  let info' :=
    set_info_Status (set_status_Resources answer.2.1 (info_Status info)) info in
  let wk :=
    with_kube answer.1
              (called (KubeGet ns manifest)
                      (called (statusLookup Releases req (w_releases w)).1 w)) in
  GetReleaseStatus Releases KubeClient lib c req w =
  match answer.2.2 with
  | Some e => (Ok (None, Some e), wk)
  | None =>
      (Ok (Some (mkGetReleaseStatusResponse info' ns), None),
       with_releases
         (storage.Written Releases (set_release_Info (Some info') rel)
                          (w_releases w))
         wk)
  end.
Proof.
  intros Hcheck Hname Hlookup Hinfo [ch Hchart] Hdel Hfail
         ns manifest answer info' wk.
  unfold GetReleaseStatus. rewrite (bind_Ok _ _ _ _ _ Hcheck). simpl.
  rewrite decide_False by done. unfold statusLookup in *.
  rewrite bind_run.
  destruct (decide (sreq_Version req ≤ 0)%Z); simpl in Hlookup.
  - rewrite bind_run, Releases_Deployed_run, Hlookup. simpl.
    rewrite bind_run. simpl. rewrite Hinfo, Hchart.
    rewrite bind_run, kubeCli_Get_run. subst wk info' answer. fold ns manifest.
    destruct (kube.Get KubeClient ns manifest _) as [k [resp err]]. simpl.
    rewrite !bool_decide_eq_false_2 by done. simpl.
    destruct err; [reflexivity|]. by rewrite bind_run, Releases_written_run.
  - rewrite bind_run, Releases_Get_run, Hlookup. simpl.
    rewrite bind_run. simpl. rewrite Hinfo, Hchart.
    rewrite bind_run, kubeCli_Get_run. subst wk info' answer. fold ns manifest.
    destruct (kube.Get KubeClient ns manifest _) as [k [resp err]]. simpl.
    rewrite !bool_decide_eq_false_2 by done. simpl.
    destruct err; [reflexivity|]. by rewrite bind_run, Releases_written_run.
Qed.

(** X18. Whatever its outcome, a status request (on a store whose
    releases carry their [Status] whenever they carry their [Info])
    makes at most two calls: one lookup in the store, when the client is compatible and a
    name was given, and then the orchestrator's [Get], only when the
    lookup gave, without error, a release that has its info and its
    chart, and on that release's namespace and manifest.  The store is as
    it was, with one exception: when the release is neither DELETED nor
    FAILED and the orchestrator answered without an error, the release
    the store handed out has been written, with the resources, through
    its pointer, and the store is what that write makes of it. *)
Theorem GetReleaseStatus_calls c req w :
  let out := GetReleaseStatus Releases KubeClient lib c req w in
  let lookup := statusLookup Releases req (w_releases w) in
  (w_calls out.2 = w_calls w ∧ w_releases out.2 = w_releases w) ∨
  (w_calls out.2 = w_calls w ++ [lookup.1] ∧ sreq_Name req ≠ EmptyString ∧
   w_releases out.2 = w_releases w) ∨
  ∃ rel info,
    lookup.2 = (Some rel, None) ∧
    release_Info rel = Some info ∧ is_Some (release_Chart rel) ∧
    w_calls out.2 = w_calls w ++
      [lookup.1; KubeGet (release_Namespace rel) (release_Manifest rel)] ∧
    let answer :=
      kube.Get KubeClient (release_Namespace rel) (release_Manifest rel)
               (w_kube w) in
    let sc := status_Code (info_Status info) in
    w_releases out.2 =
      if bool_decide (sc = Status_DELETED) || bool_decide (sc = Status_FAILED)
      then w_releases w
      else match answer.2.2 with
           | Some _ => w_releases w
           | None =>
               storage.Written Releases
                 (set_release_Info
                    (Some (set_info_Status
                             (set_status_Resources answer.2.1
                                                   (info_Status info)) info))
                    rel)
                 (w_releases w)
           end.
Proof.
  intros out lookup. subst out.
  unfold GetReleaseStatus. rewrite bind_run.
  destruct (checkClientVersion lib c w) as [[ok|p] w0] eqn:Hcheck;
    apply checkClientVersion_world in Hcheck; subst w0; [|by left].
  destruct ok; simpl; [|by left].
  destruct (decide (sreq_Name req = EmptyString)) as [|Hname]; [by left|].
  rewrite bind_run.
  assert (Hfirst : ∃ wrapped : error → error,
     (if decide (sreq_Version req ≤ 0)%Z
      then '(rel, err) ← Releases_Deployed Releases (sreq_Name req);
           mret (rel, (λ e, fmt_Errorf "getting deployed release '%s': %s"
                              [arg_string (sreq_Name req); arg_error e]) <$> err)
      else '(rel, err) ← Releases_Get Releases (sreq_Name req) (sreq_Version req);
           mret (rel, (λ e, fmt_Errorf "getting release '%s' (v%d): %s"
                              [arg_string (sreq_Name req);
                               arg_int (sreq_Version req); arg_error e]) <$> err))
       w
     = ((Ok (lookup.2.1, wrapped <$> lookup.2.2), called lookup.1 w)
        : Outcome (option Release * option error) * World St K)).
  { subst lookup. unfold statusLookup.
    destruct (decide (sreq_Version req ≤ 0)%Z); eexists.
    - rewrite bind_run, Releases_Deployed_run. simpl.
      by destruct (storage.Deployed _ _ _).
    - rewrite bind_run, Releases_Get_run. simpl.
      by destruct (storage.Get _ _ _ _). }
  destruct Hfirst as (wrapped & ->). simpl.
  destruct lookup.2 as [rel err] eqn:Hlookup. simpl.
  destruct err as [e|]; simpl; [by right; left|].
  rewrite bind_run.
  destruct rel as [rel|]; simpl; [|by right; left].
  destruct (release_Info rel) as [info|] eqn:Hinfo; [|by right; left].
  destruct (release_Chart rel) as [chart|] eqn:Hchart; [|by right; left].
  rewrite bind_run, kubeCli_Get_run.
  right; right. exists rel, info.
  split; [done|]. split; [done|]. split; [by eexists|]. cbv zeta.
  destruct (kube.Get KubeClient _ _ _) as [k [resp err]]. simpl.
  destruct (bool_decide _ || bool_decide _); [|destruct err]; simpl;
    rewrite ?bind_run, ?Releases_written_run; simpl;
    (split; [by rewrite <- app_assoc | done]).
Qed.

(** X19. A content request with a name, from a compatible client, makes
    the one lookup that a status request makes for the same name and
    version, and answers with what the store answered: a response that
    wraps the store's release, also when there is none, next to the
    store's error as it is, with the store unchanged. *)
Theorem GetReleaseContent_answer c req w :
  checkClientVersion lib c w = (Ok true, w) →
  creq_Name req ≠ EmptyString →
  let lookup :=
    statusLookup Releases
      (mkGetReleaseStatusRequest (creq_Name req) (creq_Version req))
      (w_releases w) in
  (GetReleaseContent Releases lib c req : M St K _) w =
  (Ok (Some (mkGetReleaseContentResponse lookup.2.1), lookup.2.2),
   called lookup.1 w).
Proof.
  intros Hcheck Hname lookup. subst lookup.
  unfold GetReleaseContent. rewrite (bind_Ok _ _ _ _ _ Hcheck). simpl.
  rewrite decide_False by done. unfold statusLookup. simpl.
  destruct (decide (creq_Version req ≤ 0)%Z).
  - rewrite bind_run, Releases_Deployed_run. simpl.
    by destruct (storage.Deployed _ _ _).
  - rewrite bind_run, Releases_Get_run. simpl.
    by destruct (storage.Get _ _ _ _).
Qed.

End StatusFacts.

(** ** Splitting a manifest document *)

Section SplitFacts.

Lemma strings_Split_from_cons sep s skip :
  ∃ piece pieces, strings_Split_from sep s skip = piece :: pieces.
Proof.
  revert skip. induction s as [|c s IH]; intros skip; cbn [strings_Split_from];
    [by exists EmptyString, nil|].
  destruct skip as [|k]; [|apply IH].
  destruct (String.prefix sep (String c s)); [by eexists _, _|].
  destruct (IH 0) as (p & ps & ->). by eexists _, _.
Qed.

Lemma strings_Join_cons x y rest sep :
  strings_Join (x :: y :: rest) sep = x +:+ sep +:+ strings_Join (y :: rest) sep.
Proof. reflexivity. Qed.

Lemma prefix_split sep s :
  String.prefix sep s = true → ∃ t, s = sep +:+ t.
Proof.
  revert s. induction sep as [|a sep IH]; intros s H; simpl in *.
  - by exists s.
  - destruct s as [|b s]; simpl in H; [done|].
    destruct (Ascii.ascii_dec a b) as [->|]; [|done].
    destruct (IH s H) as (t & ->). by exists t.
Qed.

Lemma length_append_ge pre t : String.length t ≤ String.length (pre +:+ t).
Proof.
  induction pre as [|a pre IH]; [done|].
  change (String a pre +:+ t) with (String a (pre +:+ t)). simpl. lia.
Qed.

Lemma strings_Split_from_skip sep pre t :
  strings_Split_from sep (pre +:+ t) (String.length pre)
  = strings_Split_from sep t 0.
Proof.
  induction pre as [|a pre IH]; simpl; [|done].
  destruct t; reflexivity.
Qed.

Lemma strings_Split_from_join sep t :
  sep ≠ EmptyString →
  strings_Join (strings_Split_from sep t 0) sep = t.
Proof.
  intros Hsep.
  induction t as [t IH] using (induction_ltof1 _ String.length).
  unfold ltof in IH. destruct t as [|c t]; [done|].
  cbn [strings_Split_from].
  destruct (String.prefix sep (String c t)) eqn:Hpre.
  - destruct sep as [|a sep]; [done|]. simpl in Hpre.
    destruct (Ascii.ascii_dec a c) as [->|]; [|done].
    destruct (prefix_split _ _ Hpre) as (u & ->).
    simpl. rewrite ?Nat.sub_0_r, ?strings_Split_from_skip.
    destruct (strings_Split_from_cons (String c sep) u 0) as (p & ps & Heq).
    rewrite IH, Heq.
    + reflexivity.
    + pose proof (length_append_ge sep u). simpl. lia.
  - specialize (IH t ltac:(simpl; lia)).
    destruct (strings_Split_from_cons sep t 0) as (p & ps & Heq).
    rewrite Heq in *. rewrite <- IH. destruct ps; reflexivity.
Qed.

Lemma manifestKey_inj i j : manifestKey i = manifestKey j → i = j.
Proof.
  unfold manifestKey. intros H. apply (inj pretty).
  by apply (inj (String.append "manifest-")) in H.
Qed.

Lemma splitManifests_range_lookup tmp i res k :
  splitManifests_range tmp i res !! manifestKey k =
  if decide (i ≤ k < i + length tmp) then tmp !! (k - i)
  else res !! manifestKey k.
Proof.
  revert i res. induction tmp as [|d tmp IH]; intros i res; simpl.
  - destruct (decide _); [lia|done].
  - rewrite IH. destruct (decide (S i ≤ k < S i + length tmp)).
    + rewrite decide_True by lia. by replace (k - i) with (S (k - S i)) by lia.
    + destruct (decide (i ≤ k < i + S (length tmp))).
      * assert (k = i) as -> by lia. by rewrite lookup_insert_eq, Nat.sub_diag.
      * rewrite lookup_insert_ne; [done|]. intros ?%manifestKey_inj. lia.
Qed.

Lemma splitManifests_range_size tmp i res :
  (∀ k, i ≤ k → res !! manifestKey k = None) →
  size (splitManifests_range tmp i res) = size res + length tmp.
Proof.
  revert i res. induction tmp as [|d tmp IH]; intros i res Hres; simpl; [lia|].
  rewrite IH.
  - rewrite map_size_insert_None by (apply Hres; lia). lia.
  - intros k Hk. rewrite lookup_insert_ne; [apply Hres; lia|].
    intros ?%manifestKey_inj. lia.
Qed.

(** X20. Splitting a manifest document loses nothing: there are
    documents, at least one, such that the result holds, under the keys
    manifest-0, manifest-1, ... in order, exactly these documents and
    nothing else, and joining them with the separator line gives back the
    document that was split. *)
Theorem splitManifests_round_trip bigfile :
  ∃ docs,
    docs ≠ [] ∧
    (∀ i, splitManifests bigfile !! manifestKey i = docs !! i) ∧
    size (splitManifests bigfile) = length docs ∧
    strings_Join docs manifestSep = bigfile.
Proof.
  exists (strings_Split bigfile manifestSep). unfold splitManifests. repeat split.
  - unfold strings_Split.
    by destruct (strings_Split_from_cons manifestSep bigfile 0) as (p & ps & ->).
  - intros i. rewrite splitManifests_range_lookup, Nat.sub_0_r.
    destruct (decide _) as [|Hi]; [done|].
    rewrite lookup_empty. symmetry. apply lookup_ge_None. lia.
  - rewrite splitManifests_range_size; [by rewrite map_size_empty|].
    intros k _. apply lookup_empty.
  - by apply strings_Split_from_join.
Qed.

(** X21. The document that an install or an upgrade renders starts with
    a separator line, or is empty: split again, its first document,
    manifest-0, is always the empty one. *)
Theorem splitManifests_manifestDoc manifests :
  splitManifests (manifestDoc manifests) !! manifestKey 0 = Some EmptyString.
Proof.
  unfold splitManifests. rewrite splitManifests_range_lookup, Nat.sub_0_r.
  unfold strings_Split.
  destruct (strings_Split_from_cons manifestSep (manifestDoc manifests) 0)
    as (p & ps & Heq).
  rewrite Heq. rewrite decide_True by (simpl; lia). simpl. f_equal.
  destruct manifests as [|m rest]; lazy in Heq; by injection Heq as <- _.
Qed.

End SplitFacts.

(** ** Requests that lack a name or a chart; failures of the store at
       the end of an upgrade *)

Section RequestFacts.
Context {St K Values : Type}.
Variable Releases : storage.Storage St.
Variable KubeClient : kube.Client K.
Variable lib : Library Values.
Implicit Types w : World St K.

(** X22. A request that lacks what the handler needs is turned away
    before any call is made and with the world as it was: a status, a
    content, an upgrade or a rollback request without a name with the
    missing-release error; an upgrade request with a name but no chart,
    and any install request with no chart, with the missing-chart
    error.  The upgrade looks at the name before the chart. *)
Theorem missing_fields_rejected c w :
  checkClientVersion lib c w = (Ok true, w) →
  (∀ req, sreq_Name req = EmptyString →
          GetReleaseStatus Releases KubeClient lib c req w
          = (Ok (None, Some errMissingRelease), w)) ∧
  (∀ req, creq_Name req = EmptyString →
          GetReleaseContent Releases lib c req w
          = (Ok (None, Some errMissingRelease), w)) ∧
  (∀ req, ureq_Name req = EmptyString →
          UpdateRelease Releases KubeClient lib c req w
          = (Ok (None, Some errMissingRelease), w)) ∧
  (∀ req, ureq_Name req ≠ EmptyString → ureq_Chart req = None →
          UpdateRelease Releases KubeClient lib c req w
          = (Ok (None, Some errMissingChart), w)) ∧
  (∀ req, rreq_Name req = EmptyString →
          RollbackRelease Releases KubeClient lib c req w
          = (Ok (None, Some errMissingRelease), w)) ∧
  (∀ req, ireq_Chart req = None →
          InstallRelease Releases KubeClient lib c req w
          = (Ok (None, Some errMissingChart), w)).
Proof.
  intros Hcheck. repeat split; intros req.
  - intros Hname. unfold GetReleaseStatus.
    rewrite (bind_Ok _ _ _ _ _ Hcheck). simpl. by rewrite decide_True.
  - intros Hname. unfold GetReleaseContent.
    rewrite (bind_Ok _ _ _ _ _ Hcheck). simpl. by rewrite decide_True.
  - intros Hname. unfold UpdateRelease, prepareUpdate.
    rewrite (bind_Ok _ _ _ _ _ Hcheck). simpl. by rewrite decide_True.
  - intros Hname Hchart. unfold UpdateRelease, prepareUpdate.
    rewrite (bind_Ok _ _ _ _ _ Hcheck). simpl.
    rewrite decide_False by done. by rewrite Hchart.
  - intros Hname. unfold RollbackRelease, prepareRollback.
    rewrite (bind_Ok _ _ _ _ _ Hcheck). simpl. by rewrite decide_True.
  - intros Hchart. unfold InstallRelease, prepareRelease.
    rewrite (bind_Ok _ _ _ _ _ Hcheck). simpl. by rewrite Hchart.
Qed.


End RequestFacts.

(** * Further runs on the small environment *)

Lemma incompatible_client_rejected_witness :
  let w := fixture.world fixture.deployedStore in
  checkClientVersion fixture.packages cases.outdated w = (Ok false, w) ∧
  InstallRelease memory.store fixture.cluster fixture.packages cases.outdated
                 (fixture.install fixture.chart false) w
  = (Ok (None, Some errIncompatibleVersion), w).
Proof.
  intros w.
  assert (Hcheck : checkClientVersion fixture.packages cases.outdated w
                   = (Ok false, w)) by (vm_compute; reflexivity).
  split; [exact Hcheck|].
  apply (incompatible_client_rejected memory.store fixture.cluster
           fixture.packages cases.outdated w Hcheck).
Defined.

Lemma ListReleases_select_offset_witness :
  let w := fixture.world fixture.pairStore in
  lreq_Offset cases.listingFrom ≠ EmptyString ∧
  ∃ total x w1,
    (ListReleases_select memory.store fixture.packages fixture.client
                         cases.listingFrom : M _ nat _) w
      = (Ok (total, [x], None), w1) ∧
    release_Name x = "foo".
Proof.
  intros w. split; [discriminate|].
  eassert (Hrun : (ListReleases_select memory.store fixture.packages
                     fixture.client cases.listingFrom : M _ nat _) w
                  = (Ok (_, [_], None), _))
    by (vm_compute; reflexivity).
  destruct (ListReleases_select_offset memory.store fixture.packages
              fixture.client cases.listingFrom w _ _ _
              ltac:(discriminate) Hrun)
    as (x & rest & Heq & Hname & _).
  eexists _, _, _. split; [exact Hrun|].
  injection Heq as <- _. exact Hname.
Defined.

Lemma RollbackRelease_supersedes_witness :
  let w := fixture.world fixture.upgradedStore in
  rreq_DryRun fixture.rollback = false ∧
  ∃ res w',
    RollbackRelease memory.store fixture.cluster fixture.packages
                    fixture.client fixture.rollback w
      = (Ok (Some res, None), w') ∧
    release_code (rres_Release res) = Some Status_DEPLOYED ∧
    release_Version (rres_Release res) = 3%Z ∧
    release_Manifest (rres_Release res) = "kind: ConfigMap".
Proof.
  intros w. split; [reflexivity|].
  eassert (Hrun : RollbackRelease memory.store fixture.cluster fixture.packages
                    fixture.client fixture.rollback w = (Ok (Some _, None), _))
    by (vm_compute; reflexivity).
  destruct (RollbackRelease_supersedes memory.store fixture.cluster
              fixture.packages fixture.client fixture.rollback w _ _
              eq_refl Hrun)
    as (current & previous & superseded & st0 & st1 & d & _ & _ & _ & _ & _ & _
        & Hcode & _).
  eexists _, _. split; [exact Hrun|]. split; [exact Hcode|].
  split; vm_compute; reflexivity.
Defined.

Lemma RollbackRelease_apply_failure_witness :
  let w := fixture.world cases.brokenStore in
  rreq_DryRun fixture.rollback = false ∧
  checkClientVersion fixture.packages fixture.client w = (Ok true, w) ∧
  ∃ e w',
    RollbackRelease memory.store fixture.cluster fixture.packages
                    fixture.client fixture.rollback w
      = (Ok (None, Some e), w').
Proof.
  intros w. split; [reflexivity|]. split; [vm_compute; reflexivity|].
  eassert (Hprep : prepareRollback memory.store fixture.packages
                     fixture.rollback w = (Ok (Some (_, _), None), _))
    by (vm_compute; reflexivity).
  match type of Hprep with
  | _ = (Ok (Some (?cur, ?tgt), None), ?w1) =>
      eassert (Hpre : hookPhase fixture.cluster fixture.packages
                        (rreq_DisableHooks fixture.rollback) tgt preRollback w1
                      = (Ok (_, None), _))
        by (vm_compute; reflexivity);
      match type of Hpre with
      | _ = (Ok (?r, None), ?w2) =>
          eassert (Hkube : performKubeUpdate fixture.cluster cur r w2
                           = (Ok (Some _), _))
            by (vm_compute; reflexivity)
      end
  end.
  destruct (RollbackRelease_apply_failure memory.store fixture.cluster
              fixture.packages fixture.client fixture.rollback w _ _ _ _ _
              eq_refl eq_refl Hprep
              (kube_rollback_fails _ _ _ _ _ _ _ _ _ _ Hpre Hkube))
    as (Hrun & _).
  eexists _, _. exact Hrun.
Defined.

Lemma UpdateRelease_dry_run_witness :
  let w := fixture.world fixture.deployedStore in
  let run := UpdateRelease memory.store fixture.cluster fixture.packages
                           fixture.client cases.upgradeDryRun w in
  ureq_DryRun cases.upgradeDryRun = true ∧
  w_releases run.2 = fixture.deployedStore.
Proof.
  intros w run. split; [reflexivity|].
  pose proof (UpdateRelease_dry_run memory.store fixture.cluster
                fixture.packages fixture.client cases.upgradeDryRun w eq_refl)
    as H.
  subst run.
  destruct (UpdateRelease _ _ _ _ _ _) as [out w'].
  by destruct H as [H _].
Defined.

Lemma RollbackRelease_dry_run_witness :
  let w := fixture.world fixture.upgradedStore in
  let run := RollbackRelease memory.store fixture.cluster fixture.packages
                             fixture.client cases.rollbackDryRun w in
  rreq_DryRun cases.rollbackDryRun = true ∧
  w_releases run.2 = fixture.upgradedStore.
Proof.
  intros w run. split; [reflexivity|].
  pose proof (RollbackRelease_dry_run memory.store fixture.cluster
                fixture.packages fixture.client cases.rollbackDryRun w eq_refl)
    as H.
  subst run.
  destruct (RollbackRelease _ _ _ _ _ _) as [out w'].
  by destruct H as [H _].
Defined.

Lemma performRelease_success_witness :
  let w := fixture.world tt in
  let req := fixture.install fixture.chart false in
  ∃ deployed w',
    coded Status_DEPLOYED cases.prepared = Some deployed ∧
    storage.Create fixture.downStore deployed tt
      = (tt, Some fixture.unreachable) ∧
    performRelease fixture.downStore fixture.cluster fixture.packages
                   cases.prepared req w
      = (Ok (mkInstallReleaseResponse deployed, None), w').
Proof.
  intros w req.
  eassert (Hpre : hookPhase fixture.cluster fixture.packages
                    (ireq_DisableHooks req) cases.prepared preInstall w
                  = (Ok (_, None), _)) by (vm_compute; reflexivity).
  match type of Hpre with
  | _ = (Ok (?r1, None), ?w1) =>
      eassert (Hcreate : kubeCli_Create fixture.cluster (release_Namespace r1)
                           (release_Manifest r1) w1 = (Ok None, _))
        by (vm_compute; reflexivity);
      match type of Hcreate with
      | _ = (_, ?w2) =>
          eassert (Hpost : hookPhase fixture.cluster fixture.packages
                             (ireq_DisableHooks req) r1 postInstall w2
                           = (Ok (_, None), _)) by (vm_compute; reflexivity)
      end
  end.
  match type of Hpost with
  | _ = (Ok (?r3, None), _) =>
      eassert (Hcoded : coded Status_DEPLOYED r3 = Some _)
        by (vm_compute; reflexivity)
  end.
  eexists _, _. split; [|split].
  3: exact (performRelease_success fixture.downStore fixture.cluster
              fixture.packages cases.prepared req w _ _ _ _ _ _
              eq_refl Hpre Hcreate Hpost Hcoded).
  - vm_compute; reflexivity.
  - reflexivity.
Defined.

Lemma InstallRelease_no_release_witness :
  let w := fixture.world fixture.deployedStore in
  ∃ err w',
    InstallRelease memory.store fixture.cluster fixture.packages
                   fixture.client cases.installNoChart w
      = (Ok (None, err), w') ∧
    is_Some err ∧ w_releases w' = fixture.deployedStore.
Proof.
  intros w.
  eassert (Hrun : InstallRelease memory.store fixture.cluster fixture.packages
                    fixture.client cases.installNoChart w
                  = (Ok (None, _), _)) by (vm_compute; reflexivity).
  destruct (InstallRelease_no_release memory.store fixture.cluster
              fixture.packages fixture.client cases.installNoChart w _ _ Hrun)
    as (Herr & Hst & _).
  eexists _, _. split; [exact Hrun|]. split; [exact Herr | exact Hst].
Defined.

Lemma prepareRelease_shape_witness :
  let w := fixture.world [] in
  ∃ rel w',
    prepareRelease memory.store fixture.cluster fixture.packages
                   (fixture.install fixture.chart false) w
      = (Ok (Some rel, None), w') ∧
    release_Version rel = 1%Z ∧
    release_code rel = Some Status_UNKNOWN ∧
    release_Name rel = "foo".
Proof.
  intros w.
  eassert (Hrun : prepareRelease memory.store fixture.cluster fixture.packages
                    (fixture.install fixture.chart false) w
                  = (Ok (Some _, None), _)) by (vm_compute; reflexivity).
  destruct (prepareRelease_shape memory.store fixture.cluster fixture.packages
              (fixture.install fixture.chart false) w _ _ Hrun)
    as (Hversion & Hcode & _ & Hname & _).
  eexists _, _. split; [exact Hrun|]. split; [exact Hversion|].
  split; [exact Hcode|]. apply Hname. discriminate.
Defined.

Lemma performRelease_hooks_disabled_witness :
  let w := fixture.world [] in
  ireq_DryRun cases.installNoHooks = false ∧
  ireq_DisableHooks cases.installNoHooks = true ∧
  is_Some (release_Info cases.prepared) ∧
  ∃ r' w',
    performRelease memory.store fixture.cluster fixture.packages
                   cases.prepared cases.installNoHooks w
      = (Ok (mkInstallReleaseResponse r', None), w') ∧
    w_calls w' = [KubeCreate "default" "kind: ConfigMap"; StoreCreate r'].
Proof.
  intros w. split; [reflexivity|]. split; [reflexivity|].
  split; [by eexists|].
  destruct (performRelease_hooks_disabled memory.store fixture.cluster
              fixture.packages cases.prepared cases.installNoHooks w
              eq_refl eq_refl ltac:(by eexists))
    as (r' & err & w' & Hrun & Hcalls & Hres).
  change (kube.Create fixture.cluster (release_Namespace cases.prepared)
            (release_Manifest cases.prepared) (w_kube w)).2
    with (@None error) in Hres.
  destruct Hres as [_ ->].
  exists r', w'. split; [exact Hrun | exact Hcalls].
Defined.

Lemma GetReleaseStatus_live_witness :
  let w := fixture.world fixture.deployedStore in
  let rel := fixture.stored 1 Status_DEPLOYED "kind: ConfigMap" in
  checkClientVersion fixture.packages fixture.client w = (Ok true, w) ∧
  (statusLookup memory.store fixture.status (w_releases w)).2
    = (Some rel, None) ∧
  ∃ resp w' kept,
    GetReleaseStatus memory.store fixture.cluster fixture.packages
                     fixture.client fixture.status w
      = (Ok (Some resp, None), w') ∧
    status_Resources (info_Status (sres_Info resp)) = "1 pod running" ∧
    memory.Get "foo" 1 (w_releases w') = (Some kept, None) ∧
    release_Info kept = Some (sres_Info resp).
Proof.
  intros w rel.
  assert (Hcheck : checkClientVersion fixture.packages fixture.client w
                   = (Ok true, w)) by (vm_compute; reflexivity).
  assert (Hlookup : (statusLookup memory.store fixture.status (w_releases w)).2
                    = (Some rel, None)) by (vm_compute; reflexivity).
  split; [exact Hcheck|]. split; [exact Hlookup|].
  pose proof (GetReleaseStatus_live memory.store fixture.cluster
                fixture.packages fixture.client fixture.status w rel _
                Hcheck ltac:(discriminate) Hlookup eq_refl
                ltac:(by eexists) ltac:(discriminate) ltac:(discriminate))
    as Hrun.
  cbv zeta in Hrun.
  eexists _, _, _. split; [exact Hrun|].
  split; [reflexivity|]. split; vm_compute; reflexivity.
Defined.

Lemma GetReleaseContent_answer_witness :
  let w := fixture.world fixture.deployedStore in
  checkClientVersion fixture.packages fixture.client w = (Ok true, w) ∧
  creq_Name cases.content ≠ EmptyString ∧
  (GetReleaseContent memory.store fixture.packages fixture.client
                     cases.content : M _ nat _) w
  = (Ok (Some (mkGetReleaseContentResponse
                 (Some (fixture.stored 1 Status_DEPLOYED "kind: ConfigMap"))),
         None),
     called (StoreGet "foo" 1) w).
Proof.
  intros w.
  assert (Hcheck : checkClientVersion fixture.packages fixture.client w
                   = (Ok true, w)) by (vm_compute; reflexivity).
  split; [exact Hcheck|]. split; [discriminate|].
  exact (GetReleaseContent_answer memory.store fixture.packages
           fixture.client cases.content w Hcheck ltac:(discriminate)).
Defined.

Lemma missing_fields_rejected_witness :
  let w := fixture.world fixture.deployedStore in
  checkClientVersion fixture.packages fixture.client w = (Ok true, w) ∧
  InstallRelease memory.store fixture.cluster fixture.packages fixture.client
                 cases.installNoChart w
  = (Ok (None, Some errMissingChart), w).
Proof.
  intros w.
  assert (Hcheck : checkClientVersion fixture.packages fixture.client w
                   = (Ok true, w)) by (vm_compute; reflexivity).
  split; [exact Hcheck|].
  by apply (missing_fields_rejected memory.store fixture.cluster
              fixture.packages fixture.client w Hcheck).
Defined.

